(** * IAS editor: emulator session layer and ANSI renderer

    A shallow embedding of [main.cjs] (process session, output guard, line
    framer, line classifier) and of [ansi-to-html.cjs] (the SGR renderer),
    with the properties the specification states about them.

    Conventions of the embedding.
    - A JavaScript string is a [text], the list of its code units; the model
      covers code units below 256 ([ascii]).  [length] is JavaScript's
      [.length].
    - A JavaScript number that only ever holds an integer is a [Z]; [NaN] is
      [None] in an [option Z].
    - [null]/[undefined] are [None].
    - The module-level variable [emulatorProcess] and the per-spawn closure
      variables ([buffer], [outputBuffer], [totalOutput]) are explicit state;
      child processes are identified by the order in which they were
      spawned.
    - Calls into the platform (kill, stdin.write, webContents.send, spawn,
      dialog.showErrorBox, setTimeout) are recorded as a list of effects, in
      program order.  [mainWindow] is taken to be alive. *)

From Stdlib Require Import ZArith Ascii String Lia.
From stdpp Require Import base list.

Local Open Scope Z_scope.
#[local] Set Warnings "-register-all".

(** ** Text *)

Definition text := list ascii.

Definition str (s : string) : text := list_ascii_of_string s.
Arguments str _%_string.

Definition LF : ascii := "010"%char.
Definition CR : ascii := "013"%char.
Definition ESC : ascii := "027"%char.
Definition DQUOTE : ascii := "034"%char.

(** JavaScript truthiness of a string: the empty string is falsy. *)
Definition truthy (s : text) : bool :=
  match s with [] => false | _ :: _ => true end.

(** [s || d] on strings. *)
Definition or_default (s d : text) : text := if truthy s then s else d.

(** WhiteSpace and LineTerminator code units below 256, as stripped by
    [String.prototype.trim] and skipped by [parseInt]. *)
Definition is_js_space (c : ascii) : bool :=
  let n := nat_of_ascii c in
  ((9 <=? n)%nat && (n <=? 13)%nat) || (n =? 32)%nat || (n =? 160)%nat.

Fixpoint trimStart (s : text) : text :=
  match s with
  | c :: s' => if is_js_space c then trimStart s' else s
  | [] => []
  end.

Definition trimEnd (s : text) : text := rev (trimStart (rev s)).

Definition trim (s : text) : text := trimEnd (trimStart s).

Fixpoint startsWith (p s : text) : bool :=
  match p, s with
  | [], _ => true
  | a :: p', b :: s' => Ascii.eqb a b && startsWith p' s'
  | _ :: _, [] => false
  end.

(** [s.includes(p)] *)
Fixpoint includes (p s : text) : bool :=
  startsWith p s ||
  match s with
  | [] => false
  | _ :: s' => includes p s'
  end.

(** [s.split(sep)] for a one-character string separator. *)
Fixpoint split_char_go (sep : ascii) (cur : text) (s : text) : list text :=
  match s with
  | [] => [cur]
  | c :: s' =>
      if Ascii.eqb c sep then cur :: split_char_go sep [] s'
      else split_char_go sep (cur ++ [c]) s'
  end.

Definition split_char (sep : ascii) (s : text) : list text :=
  split_char_go sep [] s.

(** [parts.join(sep)] *)
Fixpoint join (sep : text) (parts : list text) : text :=
  match parts with
  | [] => []
  | [p] => p
  | p :: rest => p ++ sep ++ join sep rest
  end.

(** [s.lastIndexOf(c)] for a one-character needle; [-1] when absent. *)
Fixpoint lastIndexOf_go (c : ascii) (s : text) (k : Z) (found : Z) : Z :=
  match s with
  | [] => found
  | d :: s' => lastIndexOf_go c s' (k + 1) (if Ascii.eqb d c then k else found)
  end.

Definition lastIndexOf (c : ascii) (s : text) : Z := lastIndexOf_go c s 0 (-1).

(** [s.slice(0, n)] for [0 <= n]. *)
Definition slice0 (s : text) (n : Z) : text := take (Z.to_nat n) s.

(** [s.replace(/\n/g, r)] *)
Definition replace_newlines (r : text) (s : text) : text :=
  flat_map (fun c => if Ascii.eqb c LF then r else [c]) s.

(** ** parseInt(s, 10) *)

Definition digit_value (c : ascii) : option Z :=
  let n := nat_of_ascii c in
  if ((48 <=? n)%nat && (n <=? 57)%nat)%bool then Some (Z.of_nat n - 48) else None.

(** Longest prefix of decimal digits, accumulated left to right. *)
Fixpoint parse_digits (s : text) (acc : option Z) : option Z :=
  match s with
  | [] => acc
  | c :: s' =>
      match digit_value c with
      | Some d => parse_digits s' (Some (10 * default 0 acc + d))
      | None => acc
      end
  end.

(** [None] is [NaN]. *)
Definition parseInt10 (s : text) : option Z :=
  match trimStart s with
  | c :: s' =>
      if Ascii.eqb c "-" then Z.opp <$> parse_digits s' None
      else if Ascii.eqb c "+" then parse_digits s' None
      else parse_digits (c :: s') None
  | [] => None
  end.

(** ** ansi-to-html.cjs *)

Definition htmlEscapeChar (c : ascii) : text :=
  if Ascii.eqb c "&" then str "&amp;"
  else if Ascii.eqb c "<" then str "&lt;"
  else if Ascii.eqb c ">" then str "&gt;"
  else if Ascii.eqb c DQUOTE then str "&quot;"
  else [c].

Definition htmlEscape (s : text) : text := flat_map htmlEscapeChar s.

(** The table [CSS_COLORS]; a missing key reads as [undefined]. *)
Definition CSS_COLORS (code : Z) : option text :=
  if code =? 30 then Some (str "black")
  else if code =? 31 then Some (str "red")
  else if code =? 32 then Some (str "green")
  else if code =? 33 then Some (str "yellow")
  else if code =? 34 then Some (str "blue")
  else if code =? 35 then Some (str "magenta")
  else if code =? 36 then Some (str "cyan")
  else if code =? 37 then Some (str "white")
  else if code =? 90 then Some (str "#808080")
  else if code =? 91 then Some (str "#ff5555")
  else if code =? 92 then Some (str "#55ff55")
  else if code =? 93 then Some (str "#ffff55")
  else if code =? 94 then Some (str "#5555ff")
  else if code =? 95 then Some (str "#ff55ff")
  else if code =? 96 then Some (str "#55ffff")
  else if code =? 97 then Some (str "#ffffff")
  else None.

Record style := mkStyle {
  color : option text;
  background : option text;
  bold : bool;
  underline : bool;
  inverse : bool
}.

Definition default_style : style :=
  {| color := None; background := None;
     bold := false; underline := false; inverse := false |}.

(** One iteration of the [for] loop of [sgrToStyle]; a [NaN] code matches no
    comparison and is ignored. *)
Definition sgrApply (cur : style) (code : option Z) : style :=
  match code with
  | None => cur
  | Some code =>
      if code =? 0 then default_style
      else if code =? 1 then
        {| color := color cur; background := background cur; bold := true;
           underline := underline cur; inverse := inverse cur |}
      else if code =? 4 then
        {| color := color cur; background := background cur; bold := bold cur;
           underline := true; inverse := inverse cur |}
      else if code =? 7 then
        {| color := color cur; background := background cur; bold := bold cur;
           underline := underline cur; inverse := true |}
      else if (code =? 21) || (code =? 22) then
        {| color := color cur; background := background cur; bold := false;
           underline := underline cur; inverse := inverse cur |}
      else if code =? 24 then
        {| color := color cur; background := background cur; bold := bold cur;
           underline := false; inverse := inverse cur |}
      else if ((30 <=? code) && (code <=? 37)) || ((90 <=? code) && (code <=? 97)) then
        {| color := CSS_COLORS code; background := background cur;
           bold := bold cur; underline := underline cur; inverse := inverse cur |}
      else if ((40 <=? code) && (code <=? 47)) || ((100 <=? code) && (code <=? 107)) then
        let fg := if 100 <=? code then code - 60 else code - 10 in
        {| color := color cur; background := CSS_COLORS fg;
           bold := bold cur; underline := underline cur; inverse := inverse cur |}
      else cur
  end.

Definition sgrToStyle (sgrList : list (option Z)) (cur : style) : style :=
  fold_left sgrApply sgrList cur.

(** [if (x) styles.push(prefix + x)] for a colour slot. *)
Definition push_colour (prefix : text) (x : option text) (styles : list text)
  : list text :=
  match x with
  | Some c => if truthy c then styles ++ [prefix ++ c] else styles
  | None => styles
  end.

Definition push_if (b : bool) (x : text) (styles : list text) : list text :=
  if b then styles ++ [x] else styles.

Definition styleToSpanOpen (cur : style) : text :=
  let styles := [] in
  let styles :=
    if inverse cur then
      push_colour (str "color:") (background cur)
        (push_colour (str "background:") (color cur) styles)
    else
      push_colour (str "background:") (background cur)
        (push_colour (str "color:") (color cur) styles) in
  let styles := push_if (bold cur) (str "font-weight:700") styles in
  let styles := push_if (underline cur) (str "text-decoration:underline") styles in
  match styles with
  | [] => []
  | _ => str "<span style=" ++ [DQUOTE] ++ join (str ";") styles ++ [DQUOTE] ++ str ">"
  end.

(** The variables of the scanning loop of [convertAnsiToHtml]. *)
Record scan := mkScan {
  idx : nat;
  out : text;
  cur : style;
  openSpan : text
}.

Definition scan_init : scan :=
  {| idx := 0; out := []; cur := default_style; openSpan := [] |}.

(** The inner loop
    [while (j < input.length && input[j] !== "m") params += input[j++]],
    run on the part of the input from index [j] on. *)
Fixpoint scan_params (rest : text) (j : nat) (params : text) : text * nat :=
  match rest with
  | [] => (params, j)
  | c :: rest' =>
      if Ascii.eqb c "m" then (params, j)
      else scan_params rest' (S j) (params ++ [c])
  end.

Definition is_char (c : ascii) (x : option ascii) : bool :=
  match x with Some d => Ascii.eqb d c | None => false end.

(** The literal branch: [out += htmlEscape(ch); i++]. *)
Definition emit_literal (ch : ascii) (st : scan) : scan :=
  {| idx := S (idx st); out := out st ++ htmlEscape [ch];
     cur := cur st; openSpan := openSpan st |}.

(** One iteration of the body of [while (i < input.length)]. *)
Definition loop_body (input : text) (st : scan) : scan :=
  match input !! idx st with
  | None => st
  | Some ch =>
      if Ascii.eqb ch ESC && is_char "[" (input !! S (idx st)) then
        let '(params, j) := scan_params (drop (idx st + 2) input) (idx st + 2) [] in
        if negb (is_char "m" (input !! j)) then emit_literal ch st
        else
          let nums :=
            if truthy params
            then map (fun s => parseInt10 (or_default s (str "0"))) (split_char ";" params)
            else [Some 0] in
          let out1 := if truthy (openSpan st) then out st ++ str "</span>" else out st in
          let cur' := sgrToStyle nums (cur st) in
          let spanOpen := styleToSpanOpen cur' in
          {| idx := S j;
             out := if truthy spanOpen then out1 ++ spanOpen else out1;
             cur := cur';
             openSpan := if truthy spanOpen then spanOpen else [] |}
      else if Ascii.eqb ch CR then
        let lastNewline := lastIndexOf LF (out st) in
        {| idx := S (idx st);
           out := if lastNewline =? -1 then [] else slice0 (out st) (lastNewline + 1);
           cur := cur st; openSpan := openSpan st |}
      else if Ascii.eqb ch LF then
        {| idx := S (idx st); out := out st ++ [LF];
           cur := cur st; openSpan := openSpan st |}
      else emit_literal ch st
  end.

(** [while (i < input.length) body], cut off after [fuel] iterations. *)
Fixpoint while_loop (fuel : nat) (input : text) (st : scan) : scan :=
  match fuel with
  | O => st
  | S fuel' =>
      if (idx st <? length input)%nat
      then while_loop fuel' input (loop_body input st)
      else st
  end.

(** What follows the loop: close the open span, wrap in [<pre>]. *)
Definition finish (st : scan) : text :=
  let out1 := if truthy (openSpan st) then out st ++ str "</span>" else out st in
  str "<pre style=" ++ [DQUOTE] ++ str "white-space:pre-wrap; margin:0" ++ [DQUOTE]
    ++ str ">" ++ replace_newlines (str "<br>") out1 ++ str "</pre>".

(** Every iteration advances [i], so [length input] iterations are enough
    (see [while_loop_exits_gen]). *)
Definition convertAnsiToHtml (input : text) : text :=
  finish (while_loop (length input) input scan_init).

(** ** StreamFramer: [buffer.split(/\r?\n/)] and [lines.pop()] *)

(** [String.prototype.split] with the regular expression [/\r?\n/]: scan left
    to right from the end of the previous match; at each position the
    expression matches [CR LF] if it is there, else [LF] if it is there, else
    nothing; [cur] is the text since the previous match. *)
Fixpoint split_lines_go (cur : text) (s : text) : list text :=
  match s with
  | [] => [cur]
  | c :: s' =>
      if Ascii.eqb c LF then cur :: split_lines_go [] s'
      else if Ascii.eqb c CR then
        match s' with
        | d :: s'' =>
            if Ascii.eqb d LF then cur :: split_lines_go [] s''
            else split_lines_go (cur ++ [c]) s'
        | [] => split_lines_go (cur ++ [c]) s'
        end
      else split_lines_go (cur ++ [c]) s'
  end.

Definition split_lines (s : text) : list text := split_lines_go [] s.

(** [Array.prototype.pop]: the array without its last element, and that
    element ([undefined] on an empty array). *)
Fixpoint pop {A} (l : list A) : list A * option A :=
  match l with
  | [] => ([], None)
  | x :: l' =>
      match l' with
      | [] => ([], Some x)
      | _ :: _ => let '(r, y) := pop l' in (x :: r, y)
      end
  end.

(** Lines 202 and 206-207 of the stdout handler:
    [buffer += dataStr; lines = buffer.split(...); buffer = lines.pop() || empty].
    Returns the complete lines and the new [buffer]. *)
Definition frame (buffer : text) (dataStr : text) : list text * text :=
  let buffer1 := buffer ++ dataStr in
  let '(lines, last) := pop (split_lines buffer1) in
  (lines, or_default (default [] last) []).

(** The framer fed a sequence of chunks: all lines in order, final buffer. *)
Fixpoint feed (buffer : text) (chunks : list text) : list text * text :=
  match chunks with
  | [] => ([], buffer)
  | c :: rest =>
      let '(lines, buffer') := frame buffer c in
      let '(more, final) := feed buffer' rest in
      (lines ++ more, final)
  end.

(** ** Values sent to the renderer *)

(** A parsed JSON value.  Strings are sequences of UTF-16 code units (an
    escape can denote any of them); a number keeps its source text. *)
Inductive json :=
| JNull
| JBool (b : bool)
| JNumber (lexeme : text)
| JString (units : list N)
| JArray (items : list json)
| JObject (members : list (list N * json)).

Definition units_of (s : text) : list N := map N_of_ascii s.

Fixpoint units_eqb (a b : list N) : bool :=
  match a, b with
  | [], [] => true
  | x :: a', y :: b' => N.eqb x y && units_eqb a' b'
  | _, _ => false
  end.

(** Whether a parsed value is an object with a member named [name]. *)
Definition has_field (name : text) (j : json) : bool :=
  match j with
  | JObject members => existsb (fun kv => units_eqb (fst kv) (units_of name)) members
  | _ => false
  end.

Inductive payload :=
| PText (t : text)
| PJson (j : json)
| PNumber (n : Z).

(** ** Platform calls *)

(** A child process is named by its rank among the spawned processes. *)
Abbreviation pid := nat (only parsing).

Inductive signal := SIGTERM | SIGKILL.

(** What an [ipcMain.handle] callback returns. *)
Inductive reply :=
| Undefined
| ErrorObject (error : text).

Inductive effect :=
| Kill (p : pid) (sig : option signal)      (* p.kill() / p.kill(sig) *)
| StdinWrite (p : pid) (data : text)        (* p.stdin.write(data) *)
| Send (channel : text) (arg : payload)     (* mainWindow.webContents.send *)
| Spawn (p : pid) (file : list text) (args : list text)
| ShowErrorBox (title content : text)       (* dialog.showErrorBox *)
| SetTimeout (ms : Z)                       (* setTimeout(callback, ms) *)
| Reply (r : reply)                         (* the handler's return value *)
| ThrewTypeError.                           (* an exception leaves the handler *)

Definition ch_response : text := str "emulator:response".
Definition ch_output : text := str "emulator:output".
Definition ch_error : text := str "emulator:error".
Definition ch_exit : text := str "emulator:exit".

(** ** The host: platform, packaging, file system *)

Inductive platform := win32 | linux | darwin | other_platform.

Record host := mkHost {
  process_platform : platform;
  isPackaged : bool;
  resourcesPath : text;           (* process.resourcesPath *)
  dirname : text;                 (* __dirname *)
  existsSync : list text -> bool  (* fs.existsSync on a joined path *)
}.

(** [path.join]: a path is kept as its list of segments; a segment that is
    not a string makes [join] throw (here [None]). *)
Fixpoint path_join (parts : list (option text)) : option (list text) :=
  match parts with
  | [] => Some []
  | Some p :: rest => cons p <$> path_join rest
  | None :: _ => None
  end.

Definition resourcePath (h : host) (parts : list (option text)) : option (list text) :=
  if isPackaged h then path_join (Some (resourcesPath h) :: parts)
  else path_join (Some (dirname h) :: parts).

(** The two constants computed at the head of [getEmulatorPath]. *)
Definition platformDir (pf : platform) : option text :=
  match pf with
  | win32 => Some (str "win64")
  | linux => Some (str "linux")
  | darwin => Some (str "macos")
  | other_platform => None
  end.

Definition fileName (pf : platform) : text :=
  match pf with
  | win32 => str "emulator.exe"
  | _ => str "emulator.out"
  end.

(** The location looked at first, and the fallback for unpacked archives. *)
Definition primary_location (h : host) : option (list text) :=
  resourcePath h [Some (str "bin"); platformDir (process_platform h);
                  Some (fileName (process_platform h))].

Definition fallback_location (h : host) : option (list text) :=
  resourcePath h [Some (str "app.asar.unpacked"); Some (str "bin");
                  platformDir (process_platform h);
                  Some (fileName (process_platform h))].

(** [getEmulatorPath]: [None] when it throws, [Some None] when it returns
    [null], [Some (Some p)] when it returns the path [p]. *)
Definition getEmulatorPath (h : host) : option (option (list text)) :=
  match primary_location h with
  | None => None
  | Some p =>
      if existsSync h p then Some (Some p)
      else
        match fallback_location h with
        | None => None
        | Some alt => if existsSync h alt then Some (Some alt) else Some None
        end
  end.

(** ** Session state *)

(** The variables captured by the handlers of one spawned process. *)
Record closure := mkClosure {
  buffer : text;
  outputBuffer : text;
  totalOutput : Z
}.

Definition closure_init : closure :=
  {| buffer := []; outputBuffer := []; totalOutput := 0 |}.

(** [emulatorProcess] is the module-level variable; [procs] holds the closure
    of every process spawned so far (process [p] is the [p]-th spawned);
    [timers] counts the pending callbacks scheduled by the stop handler. *)
Record state := mkState {
  emulatorProcess : option pid;
  procs : list closure;
  timers : nat
}.

Definition state_init : state :=
  {| emulatorProcess := None; procs := []; timers := 0 |}.

Definition set_handle (s : state) (h : option pid) : state :=
  {| emulatorProcess := h; procs := procs s; timers := timers s |}.

Definition MAX_TOTAL_OUTPUT : Z := 64 * 1024.

Definition overflow_message : text :=
  str "Emulator output exceeded limit. Process killed.".

(** [if (emulatorProcess) emulatorProcess.kill()] at the head of
    [spawnEmulator]. *)
Definition kill_current (s : state) : list effect :=
  match emulatorProcess s with
  | Some old => [Kill old None]
  | None => []
  end.

(** The argument list built by [spawnEmulator]. *)
Definition launch_args (programPath : text) (debugMode : bool) : list text :=
  if debugMode then [programPath; str "--debug"; str "IPC"] else [programPath].

Section Session.

(** [JSON.parse] on a line: [None] when it throws. *)
Variable JSON_parse : text -> option json.
Variable h : host.

(** The body of [lines.forEach] in the stdout handler. *)
Definition classify (line : text) : list effect :=
  if startsWith (str "{") line then
    match JSON_parse line with
    | Some json => [Send ch_response (PJson json)]
    | None => [Send ch_output (PText line)]
    end
  else if truthy (trim line) then
    [Send ch_output (PText (convertAnsiToHtml line))]
  else [].

(** The stdout ["data"] handler of one process: [g] is the value of
    [emulatorProcess] when the handler runs, [c] the handler's closure. *)
Definition stdout_data (g : option pid) (c : closure) (data : text)
  : closure * list effect :=
  let dataStr := data in
  let total := totalOutput c + Z.of_nat (length dataStr) in
  if total >? MAX_TOTAL_OUTPUT then
    let c' := {| buffer := buffer c; outputBuffer := outputBuffer c;
                 totalOutput := total |} in
    match g with
    | Some q => (c', [Kill q None; Send ch_error (PText overflow_message)])
    | None => (c', [ThrewTypeError])
    end
  else
    let '(lines, buffer') := frame (buffer c) dataStr in
    ({| buffer := buffer'; outputBuffer := outputBuffer c ++ dataStr;
        totalOutput := total |},
     flat_map classify lines).

(** The stderr ["data"] handler. *)
Definition stderr_data (c : closure) (data : text) : closure * list effect :=
  let errorStr := data in
  ({| buffer := buffer c;
      outputBuffer := outputBuffer c ++ str "[ERROR] " ++ errorStr;
      totalOutput := totalOutput c |},
   (if includes (str "Error parsing") errorStr
    then [Send ch_output (PText (convertAnsiToHtml errorStr))] else [])
   ++ [Send ch_error (PText errorStr)]).

(** [code || 0] *)
Definition code_or_0 (code : option Z) : Z := default 0 code.

(** [spawnEmulator(programPath, debugMode)] *)
Definition spawnEmulator (s : state) (programPath : text) (debugMode : bool)
  : state * list effect :=
  match getEmulatorPath h with
  | None => (s, [ThrewTypeError])
  | Some None =>
      (s, [ShowErrorBox (str "Unsupported Platform")
                        (str "Your platform is not supported.")])
  | Some (Some emulatorPath) =>
      let killed := kill_current s in
      let args := launch_args programPath debugMode in
      let p := length (procs s) in
      ({| emulatorProcess := Some p;
          procs := procs s ++ [closure_init];
          timers := timers s |},
       killed ++ [Spawn p emulatorPath args])
  end.

(** Events: the three IPC calls, the four callbacks of a child process, the
    expiry of a stop timer, and the application's [before-quit]. *)
Inductive event :=
| IpcStart (programPath : text) (debugMode : bool)
| IpcCommand (command : text)
| IpcStop
| StdoutData (p : pid) (data : text)
| StderrData (p : pid) (data : text)
| ProcError (p : pid) (message : text)
| ProcExit (p : pid) (code : option Z)
| TimerFire
| BeforeQuit.

(** A handler that returns normally resolves the IPC call to [undefined]. *)
Definition returns (effs : list effect) : list effect :=
  if existsb (fun e => match e with ThrewTypeError => true | _ => false end) effs
  then effs else effs ++ [Reply Undefined].

Definition emulator_start (s : state) (programPath : text) (debugMode : bool)
  : state * list effect :=
  let '(s', effs) := spawnEmulator s programPath debugMode in
  (s', returns effs).

Definition emulator_command (s : state) (command : text) : state * list effect :=
  match emulatorProcess s with
  | None => (s, [Reply (ErrorObject (str "Emulator not running"))])
  | Some p => (s, [StdinWrite p (command ++ [LF]); Reply Undefined])
  end.

(** The callback given to [setTimeout] by the stop handler. *)
Definition stop_timeout (s : state) : state * list effect :=
  match emulatorProcess s with
  | Some q => (s, [Kill q (Some SIGKILL)])
  | None => (s, [])
  end.

Definition emulator_stop (s : state) : state * list effect :=
  match emulatorProcess s with
  | Some p =>
      ({| emulatorProcess := None; procs := procs s; timers := S (timers s) |},
       [Kill p (Some SIGTERM); SetTimeout 1000; Reply Undefined])
  | None => (s, [Reply Undefined])
  end.

Definition before_quit (s : state) : state * list effect :=
  match emulatorProcess s with
  | Some p => (set_handle s None, [Kill p (Some SIGTERM)])
  | None => (s, [])
  end.

Definition with_closure (s : state) (p : pid) (c : closure) : state :=
  {| emulatorProcess := emulatorProcess s;
     procs := <[p := c]> (procs s);
     timers := timers s |}.

(** One turn of the event loop.  A process event for a process that was
    never spawned has no handler and does nothing. *)
Definition step (s : state) (e : event) : state * list effect :=
  match e with
  | IpcStart programPath debugMode => emulator_start s programPath debugMode
  | IpcCommand command => emulator_command s command
  | IpcStop => emulator_stop s
  | StdoutData p data =>
      match procs s !! p with
      | Some c =>
          let '(c', effs) := stdout_data (emulatorProcess s) c data in
          (with_closure s p c', effs)
      | None => (s, [])
      end
  | StderrData p data =>
      match procs s !! p with
      | Some c =>
          let '(c', effs) := stderr_data c data in
          (with_closure s p c', effs)
      | None => (s, [])
      end
  | ProcError p message =>
      match procs s !! p with
      | Some _ =>
          (set_handle s None,
           [Send ch_error (PText (str "Failed to start emulator: " ++ message))])
      | None => (s, [])
      end
  | ProcExit p code =>
      match procs s !! p with
      | Some _ => (set_handle s None, [Send ch_exit (PNumber (code_or_0 code))])
      | None => (s, [])
      end
  | TimerFire =>
      match timers s with
      | S n =>
          stop_timeout {| emulatorProcess := emulatorProcess s;
                          procs := procs s; timers := n |}
      | O => (s, [])
      end
  | BeforeQuit => before_quit s
  end.

(** A run: the state after a sequence of events, and the effects of each. *)
Fixpoint run (s : state) (es : list event) : state * list (list effect) :=
  match es with
  | [] => (s, [])
  | e :: es' =>
      let '(s1, effs) := step s e in
      let '(s2, rest) := run s1 es' in
      (s2, effs :: rest)
  end.

End Session.

(** ** Vocabulary of the statements *)

Fixpoint text_eqb (a b : text) : bool :=
  match a, b with
  | [], [] => true
  | x :: a', y :: b' => Ascii.eqb x y && text_eqb a' b'
  | _, _ => false
  end.

Definition is_send_on (ch : text) (e : effect) : bool :=
  match e with
  | Send c _ => text_eqb c ch
  | _ => false
  end.

(** The framing contract in the words of the specification: cut the text at
    every line feed, drop one carriage return that ends a cut-off segment,
    and keep the segment after the last line feed as the remainder. *)
Definition strip_cr (l : text) : text :=
  match pop l with
  | (init, Some c) => if Ascii.eqb c CR then init else l
  | (_, None) => l
  end.

Definition spec_lines (s : text) : list text * text :=
  let '(segments, last) := pop (split_char LF s) in
  (map strip_cr segments, default [] last).

(** How many events [effs] sends on channel [ch]. *)
Definition count_sends (ch : text) (effs : list effect) : nat :=
  length (List.filter (is_send_on ch) effs).

(** Cumulative length of a sequence of chunks. *)
Definition total_length (chunks : list text) : Z :=
  fold_right (fun c acc => Z.of_nat (length c) + acc) 0 chunks.

(** The stdout handler of one process run on successive chunks while
    [emulatorProcess] stays [g]: final closure, all effects in order. *)
Fixpoint stdout_session (JSON_parse : text -> option json) (g : option pid)
    (c : closure) (chunks : list text) : closure * list effect :=
  match chunks with
  | [] => (c, [])
  | d :: rest =>
      let '(c1, effs) := stdout_data JSON_parse g c d in
      let '(c2, more) := stdout_session JSON_parse g c1 rest in
      (c2, effs ++ more)
  end.

(** What an overflowing chunk causes when [emulatorProcess] is [q]. *)
Definition overflow_effects (q : pid) : list effect :=
  [Kill q None; Send ch_error (PText overflow_message)].

(** A chunk of 65537 characters. *)
Definition big_chunk : text := N.iter 65537 (cons "a"%char) [].

(** A chunk of 1000 characters: ten lines of 99 letters and a line feed. *)
Definition chunk_1000 : text :=
  concat (replicate 10 (replicate 99 "a"%char ++ [LF])).

(** A session that writes 70000 characters in chunks of 1000 and exits. *)
Definition session_70000 : list event :=
  IpcStart (str "prog.ias") false
  :: map (StdoutData 0%nat) (replicate 70 chunk_1000) ++ [ProcExit 0%nat None].

(** [p] has been spawned and is not the current process. *)
Definition gone (p : pid) (s : state) : Prop :=
  (p < length (procs s))%nat /\ emulatorProcess s <> Some p.

(** A whole session of process [p]: the start request, the stdout chunks in
    order of arrival, the exit. *)
Definition session_events (p : pid) (programPath : text) (debugMode : bool)
    (chunks : list text) (code : option Z) : list event :=
  IpcStart programPath debugMode
  :: map (StdoutData p) chunks ++ [ProcExit p code].

Definition has_emulator (h : host) : bool :=
  match getEmulatorPath h with
  | Some (Some _) => true
  | _ => false
  end.

(** A sequence of events in which no start request leads to a spawn. *)
Definition no_spawn (h : host) (es : list event) : bool :=
  forallb (fun e => match e with
                    | IpcStart _ _ => negb (has_emulator h)
                    | _ => true
                    end) es.

Definition not_running : list effect :=
  [Reply (ErrorObject (str "Emulator not running"))].

(** Every command of the run [es], with effects [effss], was refused. *)
Fixpoint commands_refused (es : list event) (effss : list (list effect)) : Prop :=
  match es, effss with
  | e :: es', effs :: effss' =>
      (match e with IpcCommand _ => effs = not_running | _ => True end)
      /\ commands_refused es' effss'
  | [], [] => True
  | _, _ => False
  end.

Definition targets (p : pid) (e : effect) : bool :=
  match e with
  | Kill q _ => Nat.eqb q p
  | StdinWrite q _ => Nat.eqb q p
  | _ => false
  end.

(** ** A reference reading of [JSON.parse]

    The session code is stated over an arbitrary [JSON_parse]; this is the
    JSON grammar (ECMA-404), used where a concrete parser is needed.  Each
    recursive call is made on a strictly shorter text, so a fuel of one more
    than the length of the input is never exhausted.  The members of an
    object are the own properties [JSON.parse] creates: a repeated key keeps
    its first place and takes its last value, and the keys that are array
    indices come first, in ascending order, before the other keys in their
    order of creation. *)

(** Defining the property [k] with value [v] on the object built so far. *)
Fixpoint define_member (k : list N) (v : json) (ms : list (list N * json))
  : list (list N * json) :=
  match ms with
  | [] => [(k, v)]
  | (k', v') :: ms' =>
      if units_eqb k' k then (k', v) :: ms' else (k', v') :: define_member k v ms'
  end.

Definition digit_unit (u : N) : option N :=
  if ((48 <=? u) && (u <=? 57))%N then Some (u - 48)%N else None.

Fixpoint index_value (k : list N) (acc : N) : option N :=
  match k with
  | [] => Some acc
  | u :: k' =>
      match digit_unit u with
      | Some d => index_value k' (10 * acc + d)%N
      | None => None
      end
  end.

(** The array index a key denotes: a canonical decimal numeral below
    2^32 - 1. *)
Definition array_index (k : list N) : option N :=
  match k with
  | [] => None
  | [u] => digit_unit u
  | u :: _ =>
      if (u =? 48)%N then None
      else
        match index_value k 0 with
        | Some n => if (n <? 4294967295)%N then Some n else None
        | None => None
        end
  end.

Fixpoint insert_index (n : N) (kv : list N * json)
    (l : list (N * (list N * json))) : list (N * (list N * json)) :=
  match l with
  | [] => [(n, kv)]
  | (m, kv') :: l' =>
      if (n <? m)%N then (n, kv) :: l else (m, kv') :: insert_index n kv l'
  end.

(** The order in which the own properties of the object are enumerated. *)
Definition order_members (ms : list (list N * json)) : list (list N * json) :=
  let indexed :=
    fold_left (fun acc kv => match array_index (fst kv) with
                             | Some n => insert_index n kv acc
                             | None => acc
                             end) ms [] in
  let named :=
    List.filter (fun kv => match array_index (fst kv) with
                           | Some _ => false
                           | None => true
                           end) ms in
  map snd indexed ++ named.

Definition is_json_ws (c : ascii) : bool :=
  let n := nat_of_ascii c in
  (n =? 32)%nat || (n =? 10)%nat || (n =? 13)%nat || (n =? 9)%nat.

Fixpoint skip_ws (s : text) : text :=
  match s with
  | c :: s' => if is_json_ws c then skip_ws s' else s
  | [] => []
  end.

Definition is_digit (c : ascii) : bool :=
  let n := nat_of_ascii c in ((48 <=? n)%nat && (n <=? 57)%nat).

Fixpoint take_digits (s : text) : text * text :=
  match s with
  | c :: s' =>
      if is_digit c then let '(ds, rest) := take_digits s' in (c :: ds, rest)
      else ([], s)
  | [] => ([], [])
  end.

Definition hex_value (c : ascii) : option N :=
  let n := N_of_ascii c in
  if ((48 <=? n) && (n <=? 57))%N then Some (n - 48)%N
  else if ((65 <=? n) && (n <=? 70))%N then Some (n - 55)%N
  else if ((97 <=? n) && (n <=? 102))%N then Some (n - 87)%N
  else None.

Definition hex4 (a b c d : ascii) : option N :=
  match hex_value a, hex_value b, hex_value c, hex_value d with
  | Some x, Some y, Some z, Some w => Some (((x * 16 + y) * 16 + z) * 16 + w)%N
  | _, _, _, _ => None
  end.

Definition simple_escape (e : ascii) : option N :=
  if Ascii.eqb e DQUOTE then Some 34%N
  else if Ascii.eqb e "\" then Some 92%N
  else if Ascii.eqb e "/" then Some 47%N
  else if Ascii.eqb e "b" then Some 8%N
  else if Ascii.eqb e "f" then Some 12%N
  else if Ascii.eqb e "n" then Some 10%N
  else if Ascii.eqb e "r" then Some 13%N
  else if Ascii.eqb e "t" then Some 9%N
  else None.

(** The characters of a string after its opening quote. *)
Fixpoint parse_string_go (s : text) (acc : list N) : option (list N * text) :=
  match s with
  | [] => None
  | c :: s' =>
      if Ascii.eqb c DQUOTE then Some (acc, s')
      else if Ascii.eqb c "\" then
        match s' with
        | e :: s'' =>
            if Ascii.eqb e "u" then
              match s'' with
              | h1 :: h2 :: h3 :: h4 :: s3 =>
                  match hex4 h1 h2 h3 h4 with
                  | Some n => parse_string_go s3 (acc ++ [n])
                  | None => None
                  end
              | _ => None
              end
            else
              match simple_escape e with
              | Some n => parse_string_go s'' (acc ++ [n])
              | None => None
              end
        | [] => None
        end
      else if (nat_of_ascii c <? 32)%nat then None
      else parse_string_go s' (acc ++ [N_of_ascii c])
  end.

Definition parse_exponent (lexeme : text) (s : text) : option (json * text) :=
  match s with
  | e :: s1 =>
      if Ascii.eqb e "e" || Ascii.eqb e "E" then
        let '(sign, s2) :=
          match s1 with
          | g :: s1' =>
              if Ascii.eqb g "+" || Ascii.eqb g "-" then ([g], s1') else ([], s1)
          | [] => ([], s1)
          end in
        let '(ds, s3) := take_digits s2 in
        if truthy ds then Some (JNumber (lexeme ++ [e] ++ sign ++ ds), s3) else None
      else Some (JNumber lexeme, s)
  | [] => Some (JNumber lexeme, s)
  end.

Definition parse_fraction (lexeme : text) (s : text) : option (json * text) :=
  match s with
  | d :: s1 =>
      if Ascii.eqb d "." then
        let '(ds, s2) := take_digits s1 in
        if truthy ds then parse_exponent (lexeme ++ [d] ++ ds) s2 else None
      else parse_exponent lexeme s
  | [] => parse_exponent lexeme s
  end.

Definition parse_number (s : text) : option (json * text) :=
  let '(sign, s1) :=
    match s with
    | c :: s' => if Ascii.eqb c "-" then ([c], s') else ([], s)
    | [] => ([], s)
    end in
  match s1 with
  | c :: s2 =>
      if Ascii.eqb c "0" then parse_fraction (sign ++ [c]) s2
      else if is_digit c then
        let '(ds, s3) := take_digits s2 in parse_fraction (sign ++ c :: ds) s3
      else None
  | [] => None
  end.

Fixpoint parse_value (fuel : nat) (s : text) : option (json * text) :=
  match fuel with
  | O => None
  | S f =>
      match s with
      | c :: s1 =>
          if Ascii.eqb c "{" then
            match skip_ws s1 with
            | d :: s2 =>
                if Ascii.eqb d "}" then Some (JObject [], s2)
                else '(ms, s3) ← parse_members f (d :: s2) [];
                     Some (JObject (order_members ms), s3)
            | [] => None
            end
          else if Ascii.eqb c "[" then
            match skip_ws s1 with
            | d :: s2 =>
                if Ascii.eqb d "]" then Some (JArray [], s2)
                else '(xs, s3) ← parse_elements f (d :: s2) []; Some (JArray xs, s3)
            | [] => None
            end
          else if Ascii.eqb c DQUOTE then
            '(u, s2) ← parse_string_go s1 []; Some (JString u, s2)
          else if startsWith (str "true") s then Some (JBool true, drop 4 s)
          else if startsWith (str "false") s then Some (JBool false, drop 5 s)
          else if startsWith (str "null") s then Some (JNull, drop 4 s)
          else parse_number s
      | [] => None
      end
  end
with parse_members (fuel : nat) (s : text) (acc : list (list N * json))
  : option (list (list N * json) * text) :=
  match fuel with
  | O => None
  | S f =>
      match skip_ws s with
      | q :: s1 =>
          if Ascii.eqb q DQUOTE then
            '(k, s2) ← parse_string_go s1 [];
            match skip_ws s2 with
            | c :: s3 =>
                if Ascii.eqb c ":" then
                  '(v, s4) ← parse_value f (skip_ws s3);
                  match skip_ws s4 with
                  | d :: s5 =>
                      if Ascii.eqb d "," then parse_members f s5 (define_member k v acc)
                      else if Ascii.eqb d "}" then Some (define_member k v acc, s5)
                      else None
                  | [] => None
                  end
                else None
            | [] => None
            end
          else None
      | [] => None
      end
  end
with parse_elements (fuel : nat) (s : text) (acc : list json)
  : option (list json * text) :=
  match fuel with
  | O => None
  | S f =>
      '(v, s1) ← parse_value f (skip_ws s);
      match skip_ws s1 with
      | d :: s2 =>
          if Ascii.eqb d "," then parse_elements f s2 (acc ++ [v])
          else if Ascii.eqb d "]" then Some (acc ++ [v], s2)
          else None
      | [] => None
      end
  end.

(** [None] when [JSON.parse] throws a [SyntaxError]. *)
Definition json_parse (s : text) : option json :=
  match parse_value (S (length s)) (skip_ws s) with
  | Some (v, rest) => if truthy (skip_ws rest) then None else Some v
  | None => None
  end.

(** A host on which the emulator binary is where it is looked for first. *)
Definition linux_host : host :=
  {| process_platform := linux; isPackaged := false;
     resourcesPath := str "/opt/ias/resources"; dirname := str "/opt/ias";
     existsSync := fun _ => true |}.

(** A host without the binary. *)
Definition bare_host : host :=
  {| process_platform := linux; isPackaged := false;
     resourcesPath := str "/opt/ias/resources"; dirname := str "/opt/ias";
     existsSync := fun _ => false |}.

Definition dq (s : text) : text := [DQUOTE] ++ s ++ [DQUOTE].

(** ** Vocabulary of the further statements *)

(** A character that the renderer's loop treats as ordinary text. *)
Definition is_plain (c : ascii) : bool :=
  negb (Ascii.eqb c ESC) && negb (Ascii.eqb c CR) && negb (Ascii.eqb c LF).

(** A character that is neither an escape character nor a carriage
    return. *)
Definition is_text (c : ascii) : bool :=
  negb (Ascii.eqb c ESC) && negb (Ascii.eqb c CR).

(** What the loop appends to the render buffer for such a character, and
    what the returned markup holds for it. *)
Definition buffer_char (c : ascii) : text :=
  if Ascii.eqb c LF then [LF] else htmlEscapeChar c.

Definition render_char (c : ascii) : text :=
  if Ascii.eqb c LF then str "<br>" else htmlEscapeChar c.

(** The opening tag written by [convertAnsiToHtml]. *)
Definition pre_open : text :=
  str "<pre style=" ++ [DQUOTE] ++ str "white-space:pre-wrap; margin:0" ++ [DQUOTE]
    ++ str ">".

(** The parameter list of a control sequence, as the loop computes it. *)
Definition parse_params (params : text) : list (option Z) :=
  if truthy params
  then map (fun s => parseInt10 (or_default s (str "0"))) (split_char ";" params)
  else [Some 0].

(** A colour slot that [styleToSpanOpen] would write. *)
Definition colour_set (x : option text) : bool :=
  match x with
  | Some c => truthy c
  | None => false
  end.

(** A colour slot that holds no line feed. *)
Definition colour_clean (x : option text) : Prop :=
  match x with
  | Some c => LF ∉ c
  | None => True
  end.


(** A line terminator of the wire format. *)
Definition is_terminator (t : text) : Prop := t = [LF] \/ t = [CR; LF].



(** ** preload.js: the managed listeners of [emulatorAPI] *)

(** The four entries of the [listeners] object. *)
Inductive slot := on_response | on_output | on_error | on_exit.

Definition slot_eqb (a b : slot) : bool :=
  match a, b with
  | on_response, on_response | on_output, on_output
  | on_error, on_error | on_exit, on_exit => true
  | _, _ => false
  end.

(** The arrow function [(event, data) => callback(data)] created by a
    registration: a fresh function object ([wid]) around the caller's
    callback. *)
Record wrapper := mkWrapper { wid : nat; wcallback : nat }.

(** [listeners] is the object of preload.js; [registered] is what
    [ipcRenderer] holds for each emulator channel, in order of
    registration. *)
Record preload := mkPreload {
  listeners : slot -> option wrapper;
  registered : slot -> list wrapper;
  next_wid : nat
}.

Definition preload_init : preload :=
  {| listeners := fun _ => None; registered := fun _ => []; next_wid := 0 |}.

Definition slot_update {A} (f : slot -> A) (k : slot) (v : A) : slot -> A :=
  fun k' => if slot_eqb k k' then v else f k'.

(** [emitter.off(channel, fn)]: the most recently added registration of that
    very function is removed, if there is one. *)
Fixpoint ipc_off_rev (l : list wrapper) (w : wrapper) : list wrapper :=
  match l with
  | [] => []
  | x :: l' => if Nat.eqb (wid x) (wid w) then l' else x :: ipc_off_rev l' w
  end.

Definition ipc_off (l : list wrapper) (w : wrapper) : list wrapper :=
  rev (ipc_off_rev (rev l) w).

(** [if (listeners.k) ipcRenderer.off(channel, listeners.k)] *)
Definition off_current (st : preload) (k : slot) : list wrapper :=
  match listeners st k with
  | Some w => ipc_off (registered st k) w
  | None => registered st k
  end.

(** [onResponse], [onOutput], [onError], [onExit]. *)
Definition api_on (st : preload) (k : slot) (callback : nat) : preload :=
  let w := {| wid := next_wid st; wcallback := callback |} in
  {| listeners := slot_update (listeners st) k (Some w);
     registered := slot_update (registered st) k (off_current st k ++ [w]);
     next_wid := S (next_wid st) |}.

(** One of the four blocks of [removeListeners]. *)
Definition remove_slot (st : preload) (k : slot) : preload :=
  {| listeners := slot_update (listeners st) k None;
     registered := slot_update (registered st) k (off_current st k);
     next_wid := next_wid st |}.

Definition removeListeners (st : preload) : preload :=
  fold_left remove_slot [on_response; on_output; on_error; on_exit] st.

Inductive api_call :=
| CallOn (k : slot) (callback : nat)
| CallRemoveListeners.

Definition api_step (st : preload) (c : api_call) : preload :=
  match c with
  | CallOn k callback => api_on st k callback
  | CallRemoveListeners => removeListeners st
  end.

(** The callbacks that run when an event arrives on the channel of [k]. *)
Definition delivered (st : preload) (k : slot) : list nat :=
  map wcallback (registered st k).

(** ** DebuggerWindow.tsx: the memory controls *)

Definition clamp (num min max : Z) : Z := Z.min (Z.max num min) max.

(** [parsed || 0] for the result of [parseInt]: [NaN] and zero give 0. *)
Definition number_or (parsed : option Z) (d : Z) : Z :=
  match parsed with
  | Some n => if n =? 0 then d else n
  | None => d
  end.

(** The component state [memoryStart], [memoryLines]. *)
Record memory_controls := mkControls { memoryStart : Z; memoryLines : Z }.

Definition controls_init : memory_controls :=
  {| memoryStart := 0; memoryLines := 10 |}.

(** The two change handlers; [parsed] is [parseInt(e.target.value)]. *)
Inductive control_event :=
| MemoryStartChange (parsed : option Z)
| MemoryLinesChange (parsed : option Z).

Definition control_step (st : memory_controls) (e : control_event) : memory_controls :=
  match e with
  | MemoryStartChange parsed =>
      {| memoryStart := clamp (number_or parsed 0) 0 4095;
         memoryLines := memoryLines st |}
  | MemoryLinesChange parsed =>
      {| memoryStart := memoryStart st;
         memoryLines := clamp (number_or parsed 0) 0 4096 |}
  end.

(** ** wait-for-port.js *)

(** A number as [parseInt] returns it: [NaN], an integer-valued double
    (given by its exact value) or an infinity. *)
Inductive jsnum := JNaN | JFinite (z : Z) | JPosInf | JNegInf.

(** [parseInt(process.argv[3]) || 300]: [NaN] and zero are falsy. *)
Definition max_attempts (argv3 : jsnum) : jsnum :=
  match argv3 with
  | JNaN => JFinite 300
  | JFinite z => if z =? 0 then JFinite 300 else JFinite z
  | JPosInf => JPosInf
  | JNegInf => JNegInf
  end.

(** [attempts < maxAttempts] *)
Definition below (attempts : Z) (maxAttempts : jsnum) : bool :=
  match maxAttempts with
  | JFinite z => attempts <? z
  | JPosInf => true
  | JNegInf => false
  | JNaN => false
  end.

(** [attempts++] on a double: exact up to 2^53, without effect from there. *)
Definition incr (attempts : Z) : Z :=
  if attempts <? 2 ^ 53 then attempts + 1 else attempts.

(** What one call of [checkPort] comes to: the promise resolves to [true],
    resolves to [false] (time-out or socket error), or is rejected because
    [socket.connect] throws (a port outside 0..65535).  Every call is taken
    to settle: the socket's 500 ms time-out resolves a call that neither
    connects nor fails. *)
Inductive probe_result := PortOpen | PortClosed | ConnectThrows.

(** How the script ends: [process.exit(code)], or the rejection leaving
    [waitForPort]; [attempts] is the counter at that moment. *)
Inductive wait_outcome :=
| Exited (code : Z) (attempts : Z)
| Rejected (attempts : Z).

(** The loop of [waitForPort]: [probe k] is the result of the [k]-th call of
    [checkPort] (from 0), [calls] the number of calls made so far.  [None]
    when the loop is still running after [fuel] iterations. *)
Fixpoint wait_loop (fuel : nat) (maxAttempts : jsnum) (probe : nat -> probe_result)
    (attempts : Z) (calls : nat) : option wait_outcome :=
  match fuel with
  | O => None
  | S fuel' =>
      if below attempts maxAttempts then
        match probe calls with
        | PortOpen => Some (Exited 0 attempts)
        | PortClosed => wait_loop fuel' maxAttempts probe (incr attempts) (S calls)
        | ConnectThrows => Some (Rejected attempts)
        end
      else Some (Exited 1 attempts)
  end.

Definition waitForPort (fuel : nat) (argv3 : jsnum) (probe : nat -> probe_result)
  : option wait_outcome :=
  wait_loop fuel (max_attempts argv3) probe 0 0.

(** ** App.tsx: the file name shown in the header *)

Definition getFileName (currentFile : option text) : text :=
  match currentFile with
  | Some f =>
      if truthy f then or_default (default [] (pop (split_char "/" f)).2) f
      else str "No file selected"
  | None => str "No file selected"
  end.

(** What the managed listeners keep true: [ipcRenderer] holds, for each
    emulator channel, exactly the function recorded in [listeners]. *)
Definition tidy (st : preload) : Prop :=
  forall k, registered st k = match listeners st k with
                              | Some w => [w]
                              | None => []
                              end.

(** * Properties *)

(** ** The renderer's loop terminates *)

Lemma scan_params_index (rest : text) (j : nat) (params : text) :
  (j <= (scan_params rest j params).2)%nat.
Proof.
  revert j params. induction rest as [|c rest IH]; intros j params; simpl.
  - lia.
  - destruct (Ascii.eqb c "m"); simpl; [lia|].
    specialize (IH (S j) (params ++ [c])). lia.
Qed.


(** Each iteration moves [i] forward. *)
Lemma loop_body_advances (input : text) (st : scan) :
  (idx st < length input)%nat -> (idx st < idx (loop_body input st))%nat.
Proof.
  intros Hlt. unfold loop_body.
  destruct (input !! idx st) as [ch|] eqn:E.
  2:{ apply lookup_ge_None in E. lia. }
  destruct (Ascii.eqb ch ESC && is_char "[" (input !! S (idx st))).
  - pose proof (scan_params_index (drop (idx st + 2) input) (idx st + 2) []) as Hj.
    destruct (scan_params (drop (idx st + 2) input) (idx st + 2) []) as [params j].
    simpl in Hj. destruct (negb (is_char "m" (input !! j))); simpl; lia.
  - destruct (Ascii.eqb ch CR); [simpl; lia|].
    destruct (Ascii.eqb ch LF); simpl; lia.
Qed.

Lemma while_loop_exits_gen (input : text) (fuel : nat) (st : scan) :
  (length input - idx st <= fuel)%nat ->
  (length input <= idx (while_loop fuel input st))%nat.
Proof.
  revert st. induction fuel as [|fuel IH]; intros st Hm; simpl.
  - lia.
  - destruct (idx st <? length input)%nat eqn:E.
    + apply Nat.ltb_lt in E. apply IH.
      pose proof (loop_body_advances input st E). lia.
    + apply Nat.ltb_ge in E. exact E.
Qed.

(** Once the loop condition is false, more fuel changes nothing. *)
Lemma while_loop_done (input : text) (fuel : nat) (st : scan) :
  (length input <= idx st)%nat -> while_loop fuel input st = st.
Proof.
  intros Hge. destruct fuel; simpl; [done|].
  destruct (idx st <? length input)%nat eqn:E; [|done].
  apply Nat.ltb_lt in E. lia.
Qed.

Lemma while_loop_more_fuel (input : text) (fuel extra : nat) (st : scan) :
  (length input - idx st <= fuel)%nat ->
  while_loop (fuel + extra) input st = while_loop fuel input st.
Proof.
  revert st. induction fuel as [|fuel IH]; intros st Hm; simpl.
  - apply while_loop_done. lia.
  - destruct (idx st <? length input)%nat eqn:E; [|done].
    apply Nat.ltb_lt in E. apply IH.
    pose proof (loop_body_advances input st E). lia.
Qed.

(** An ordinary character (not ESC, CR or LF) is escaped and appended. *)
Lemma loop_body_ordinary (input : text) (st : scan) (ch : ascii) :
  input !! idx st = Some ch ->
  ch <> ESC -> ch <> CR -> ch <> LF ->
  loop_body input st = emit_literal ch st.
Proof.
  intros E H1 H2 H3. unfold loop_body. rewrite E.
  apply Ascii.eqb_neq in H1, H2, H3. rewrite H1, H2, H3. done.
Qed.

(** ** The framer *)

Lemma list_ind2 {A} (P : list A -> Prop) :
  P [] -> (forall a, P [a]) ->
  (forall a b l, P l -> P (b :: l) -> P (a :: b :: l)) ->
  forall l, P l.
Proof.
  intros H0 H1 H2 l.
  assert (P l /\ forall a, P (a :: l)) as [? _]; [|done].
  induction l as [|b l [IHl IHbl]]; split; auto.
Qed.

(** One unfolding of the scan. *)
Lemma split_lines_go_cons (cur : text) (c : ascii) (s : text) :
  split_lines_go cur (c :: s) =
  if Ascii.eqb c LF then cur :: split_lines_go [] s
  else if Ascii.eqb c CR then
    match s with
    | d :: s'' =>
        if Ascii.eqb d LF then cur :: split_lines_go [] s''
        else split_lines_go (cur ++ [c]) s
    | [] => split_lines_go (cur ++ [c]) s
    end
  else split_lines_go (cur ++ [c]) s.
Proof. done. Qed.

Lemma split_lines_go_nonempty (cur s : text) : split_lines_go cur s <> [].
Proof.
  revert cur. induction s as [|a|a b s IH1 IH2] using list_ind2; intros cur.
  - done.
  - simpl. destruct (Ascii.eqb a LF); [done|]. destruct (Ascii.eqb a CR); done.
  - rewrite split_lines_go_cons.
    destruct (Ascii.eqb a LF); [done|]. destruct (Ascii.eqb a CR).
    + destruct (Ascii.eqb b LF); [done|]. apply IH2.
    + apply IH2.
Qed.

Lemma pop_snoc {A} (l : list A) (x : A) : pop (l ++ [x]) = (l, Some x).
Proof.
  induction l as [|a l IH]; simpl; [done|].
  rewrite IH. destruct l; done.
Qed.

Lemma pop_app {A} (l1 l2 : list A) :
  l2 <> [] -> pop (l1 ++ l2) = (l1 ++ (pop l2).1, (pop l2).2).
Proof.
  intros Hne. destruct (exists_last Hne) as (l & x & ->).
  rewrite app_assoc, !pop_snoc. done.
Qed.

Lemma pop_cons {A} (x : A) (l : list A) :
  l <> [] -> pop (x :: l) = (x :: (pop l).1, (pop l).2).
Proof. intros Hne. apply (pop_app [x] l Hne). Qed.

(** A text without line feed is a single segment. *)
Lemma split_lines_go_no_LF (cur s : text) :
  LF ∉ s -> split_lines_go cur s = [cur ++ s].
Proof.
  revert cur. induction s as [|c s IH]; intros cur Hno; simpl.
  - by rewrite app_nil_r.
  - apply not_elem_of_cons in Hno as [Hc Hs].
    assert (Ascii.eqb c LF = false) as -> by (apply Ascii.eqb_neq; congruence).
    assert (split_lines_go (cur ++ [c]) s = [cur ++ c :: s]) as Hrec.
    { rewrite IH by done. by rewrite <- app_assoc. }
    destruct (Ascii.eqb c CR); [|done].
    destruct s as [|d s']; [done|].
    apply not_elem_of_cons in Hs as [Hd _].
    assert (Ascii.eqb d LF = false) as -> by (apply Ascii.eqb_neq; congruence).
    done.
Qed.

(** After a prefix that ends with a line feed the scan starts afresh. *)
Lemma split_lines_go_after_LF (p cur t : text) :
  split_lines_go cur ((p ++ [LF]) ++ t)
  = (pop (split_lines_go cur (p ++ [LF]))).1 ++ split_lines t.
Proof.
  revert cur. induction p as [|a|a b p IH1 IH2] using list_ind2; intros cur.
  - done.
  - simpl. destruct (Ascii.eqb a LF); [done|]. destruct (Ascii.eqb a CR); done.
  - change ((a :: b :: p) ++ [LF]) with (a :: b :: (p ++ [LF])).
    change ((a :: b :: (p ++ [LF])) ++ t) with (a :: b :: ((p ++ [LF]) ++ t)).
    rewrite !(split_lines_go_cons cur a).
    destruct (Ascii.eqb a LF).
    { rewrite pop_cons by apply split_lines_go_nonempty.
      cbn [fst app]. f_equal. apply (IH2 []). }
    destruct (Ascii.eqb a CR).
    + destruct (Ascii.eqb b LF) eqn:Eb.
      * rewrite pop_cons by apply split_lines_go_nonempty.
        cbn [fst app]. f_equal. apply IH1.
      * apply (IH2 (cur ++ [a])).
    + apply (IH2 (cur ++ [a])).
Qed.

(** Every text is a part that is empty or ends with a line feed, followed by
    a remainder without line feed. *)
Lemma last_LF_decompose (s : text) :
  exists pre rem, s = pre ++ rem /\ (LF ∉ rem) /\
                  (pre = [] \/ exists p, pre = p ++ [LF]).
Proof.
  induction s as [|c s IH] using rev_ind.
  - exists [], []. split_and!; [done|apply not_elem_of_nil|by left].
  - destruct (Ascii.eqb_spec c LF) as [->|Hc].
    + exists (s ++ [LF]), []. rewrite app_nil_r.
      split_and!; [done|apply not_elem_of_nil|right; by exists s].
    + destruct IH as (pre & rem & -> & Hno & Hpre).
      exists pre, (rem ++ [c]). rewrite app_assoc. split_and!; [done| |done].
      rewrite elem_of_app, list_elem_of_singleton. intros [?|?]; [done|congruence].
Qed.

Lemma split_lines_prefix (pre t : text) :
  (pre = [] \/ exists p, pre = p ++ [LF]) ->
  split_lines (pre ++ t) = (pop (split_lines pre)).1 ++ split_lines t.
Proof.
  intros [->|[p ->]]; [done|]. apply split_lines_go_after_LF.
Qed.

(** Splitting a text that continues: the complete lines so far stay, and the
    last segment is split again together with what follows. *)
Lemma split_lines_app (a r : text) :
  exists lines rem,
    pop (split_lines a) = (lines, Some rem) /\ (LF ∉ rem) /\
    split_lines (a ++ r) = lines ++ split_lines (rem ++ r).
Proof.
  destruct (last_LF_decompose a) as (pre & rem & -> & Hno & Hpre).
  exists (pop (split_lines pre)).1, rem. split_and!; [|done|].
  - rewrite (split_lines_prefix pre rem Hpre).
    unfold split_lines at 2. rewrite split_lines_go_no_LF by done.
    apply pop_snoc.
  - rewrite <- app_assoc. apply split_lines_prefix, Hpre.
Qed.

Lemma split_char_go_nonempty (sep : ascii) (cur s : text) :
  split_char_go sep cur s <> [].
Proof.
  revert cur. induction s as [|c s IH]; intros cur; simpl; [done|].
  destruct (Ascii.eqb c sep); [done|apply IH].
Qed.

Lemma strip_cr_snoc (cur : text) (c : ascii) :
  strip_cr (cur ++ [c]) = if Ascii.eqb c CR then cur else cur ++ [c].
Proof. unfold strip_cr. by rewrite pop_snoc. Qed.

Lemma strip_cr_id (cur : text) : (pop cur).2 <> Some CR -> strip_cr cur = cur.
Proof.
  unfold strip_cr. destruct (pop cur) as [init [c|]]; [|done]. simpl.
  intros H. destruct (Ascii.eqb_spec c CR); [congruence|done].
Qed.

Lemma split_char_go_cons (sep : ascii) (cur : text) (c : ascii) (s : text) :
  split_char_go sep cur (c :: s)
  = if Ascii.eqb c sep then cur :: split_char_go sep [] s
    else split_char_go sep (cur ++ [c]) s.
Proof. done. Qed.

(** The scan for [/\r?\n/] agrees with cutting at line feeds and dropping a
    final carriage return, as long as the text scanned so far does not end
    with a carriage return that the next character would complete. *)
Lemma split_lines_go_spec (s : text) :
  forall cur,
    ((pop cur).2 = Some CR -> head s <> Some LF) ->
    pop (split_lines_go cur s)
    = (map strip_cr (pop (split_char_go LF cur s)).1,
       (pop (split_char_go LF cur s)).2).
Proof.
  induction s as [|a|a b s IH1 IH2] using list_ind2; intros cur Hcur.
  - done.
  - simpl. destruct (Ascii.eqb_spec a LF) as [->|Ha].
    + simpl. rewrite strip_cr_id; [done|]. intros H. by apply Hcur.
    + destruct (Ascii.eqb a CR); done.
  - rewrite split_lines_go_cons, (split_char_go_cons LF cur a).
    destruct (Ascii.eqb_spec a LF) as [->|Ha].
    { rewrite !pop_cons by (apply split_lines_go_nonempty || apply split_char_go_nonempty).
      rewrite IH2 by done. cbn [fst snd map].
      rewrite strip_cr_id; [done|]. intros H. by apply Hcur. }
    destruct (Ascii.eqb_spec a CR) as [->|Ha'].
    + destruct (Ascii.eqb_spec b LF) as [->|Hb].
      * rewrite (split_char_go_cons LF _ LF), Ascii.eqb_refl.
        rewrite !pop_cons by (apply split_lines_go_nonempty || apply split_char_go_nonempty).
        rewrite IH1 by done. cbn [fst snd map].
        by rewrite strip_cr_snoc, Ascii.eqb_refl.
      * apply IH2. intros _. simpl. congruence.
    + apply IH2. rewrite pop_snoc. simpl. congruence.
Qed.

Lemma split_lines_spec (s : text) :
  pop (split_lines s) = ((spec_lines s).1, Some (spec_lines s).2).
Proof.
  unfold split_lines, spec_lines, split_char.
  rewrite split_lines_go_spec by done.
  destruct (exists_last (split_char_go_nonempty LF [] s)) as (l & x & ->).
  by rewrite pop_snoc.
Qed.

Lemma or_default_nil (s : text) : or_default s [] = s.
Proof. by destruct s. Qed.

Lemma frame_spec (b data : text) :
  exists lines rem,
    pop (split_lines (b ++ data)) = (lines, Some rem) /\ (LF ∉ rem) /\
    frame b data = (lines, rem).
Proof.
  destruct (split_lines_app (b ++ data) []) as (lines & rem & Hpop & Hno & _).
  exists lines, rem. split_and!; [done|done|].
  unfold frame. rewrite Hpop. simpl. by rewrite or_default_nil.
Qed.

Lemma feed_spec (chunks : list text) (b : text) :
  LF ∉ b ->
  exists lines rem,
    pop (split_lines (b ++ concat chunks)) = (lines, Some rem) /\ (LF ∉ rem) /\
    feed b chunks = (lines, rem).
Proof.
  revert b. induction chunks as [|c chunks IH]; intros b Hb.
  - exists [], b. split_and!; [|done|done].
    simpl. rewrite app_nil_r. unfold split_lines.
    by rewrite split_lines_go_no_LF.
  - destruct (frame_spec b c) as (lines1 & rem1 & Hpop1 & Hno1 & Hfr).
    destruct (IH rem1 Hno1) as (lines2 & rem & Hpop2 & Hno & Hfeed).
    destruct (split_lines_app (b ++ c) (concat chunks))
      as (lines1' & rem1' & Hpop1' & _ & Hsplit).
    rewrite Hpop1 in Hpop1'. injection Hpop1' as <- <-.
    exists (lines1 ++ lines2), rem. split_and!; [|done|].
    + cbn [concat]. rewrite app_assoc, Hsplit.
      rewrite pop_app by apply split_lines_go_nonempty.
      by rewrite Hpop2.
    + cbn [feed]. by rewrite Hfr, Hfeed.
Qed.

Lemma feed_app (b : text) (chunks more : list text) :
  feed b (chunks ++ more)
  = ((feed b chunks).1 ++ (feed (feed b chunks).2 more).1,
     (feed (feed b chunks).2 more).2).
Proof.
  revert b. induction chunks as [|c chunks IH]; intros b.
  - simpl. by destruct (feed b more).
  - cbn [app feed]. destruct (frame b c) as [lines b1].
    rewrite IH. destruct (feed b1 chunks) as [l2 b2]. cbn [fst snd].
    destruct (feed b2 more) as [l3 b3]. cbn [fst snd]. by rewrite app_assoc.
Qed.

(** C2.  Feeding the framer a sequence of chunks one at a time, from an empty
    buffer, yields exactly the segments of the concatenation split on
    [/\r?\n/] except the last one, in order, and keeps that last segment as
    the pending buffer; these are the lines of the framing contract (cut at
    every line feed, one carriage return before it dropped); the result is
    the same as feeding the concatenation as one chunk; and the pending
    buffer is what the next chunk is prefixed with before it is split. *)
Theorem framer_chunk_invariance (chunks : list text) :
  exists lines pending,
    pop (split_lines (concat chunks)) = (lines, Some pending) /\
    spec_lines (concat chunks) = (lines, pending) /\
    feed [] chunks = (lines, pending) /\
    feed [] [concat chunks] = (lines, pending) /\
    forall next,
      feed [] (chunks ++ [next])
      = (lines ++ (pop (split_lines (pending ++ next))).1,
         default [] (pop (split_lines (pending ++ next))).2).
Proof.
  destruct (feed_spec chunks [] (not_elem_of_nil _)) as (lines & rem & Hpop & _ & Hfeed).
  destruct (feed_spec [concat chunks] [] (not_elem_of_nil _))
    as (lines' & rem' & Hpop' & _ & Hfeed').
  cbn [concat] in Hpop'. rewrite app_nil_r in Hpop'.
  cbn [app] in Hpop, Hpop'. rewrite Hpop in Hpop'. injection Hpop' as <- <-.
  exists lines, rem. split_and!; [done| |done|done|].
  - pose proof (split_lines_spec (concat chunks)) as Hspec.
    rewrite Hpop in Hspec. injection Hspec as -> ->.
    by destruct (spec_lines (concat chunks)).
  - intros next. rewrite feed_app, Hfeed. cbn [fst snd feed].
    destruct (frame_spec rem next) as (l2 & r2 & Hp2 & _ & Hf2).
    rewrite Hf2, Hp2. cbn [fst snd default]. by rewrite app_nil_r.
Qed.

(** The example of the specification: ["a\r\nb\n c"] frames to the lines
    ["a"], ["b"] with [" c"] pending; a terminator cut between its CR and
    its LF is still one terminator. *)
Example frame_line_endings :
  feed [] [str "a" ++ [CR; LF] ++ str "b" ++ [LF] ++ str " c"]
    = ([str "a"; str "b"], str " c") /\
  feed [] [str "a" ++ [CR]; [LF] ++ str "b" ++ [LF] ++ str " c"]
    = ([str "a"; str "b"], str " c").
Proof. split; reflexivity. Qed.

(** ** The renderer *)

(** The carriage-return branch: whatever follows, the output is cut back to
    just after its last newline. *)
Lemma loop_body_carriage_return (input : text) (st : scan) :
  input !! idx st = Some CR ->
  loop_body input st
  = {| idx := S (idx st);
       out := if lastIndexOf LF (out st) =? -1 then []
              else slice0 (out st) (lastIndexOf LF (out st) + 1);
       cur := cur st; openSpan := openSpan st |}.
Proof. intros E. unfold loop_body. rewrite E. done. Qed.

Lemma lastIndexOf_go_absent (c : ascii) (s : text) (k found : Z) :
  c ∉ s -> lastIndexOf_go c s k found = found.
Proof.
  revert k found. induction s as [|d s IH]; intros k found Hno; simpl; [done|].
  apply not_elem_of_cons in Hno as [Hd Hs].
  assert (Ascii.eqb d c = false) as -> by (apply Ascii.eqb_neq; congruence).
  by apply IH.
Qed.

Lemma lastIndexOf_go_last (c : ascii) (p rem : text) (k found : Z) :
  c ∉ rem ->
  lastIndexOf_go c (p ++ c :: rem) k found = k + Z.of_nat (length p).
Proof.
  intros Hno. revert k found. induction p as [|d p IH]; intros k found.
  - simpl. rewrite Ascii.eqb_refl, lastIndexOf_go_absent by done. lia.
  - cbn [app lastIndexOf_go length]. rewrite IH. lia.
Qed.

(** What the carriage-return branch keeps of the output: the part up to and
    including its last newline; what it drops holds no newline. *)
Lemma carriage_return_cut (o : text) :
  exists dropped,
    o = (if lastIndexOf LF o =? -1 then []
         else slice0 o (lastIndexOf LF o + 1)) ++ dropped /\
    (LF ∉ dropped) /\
    ((if lastIndexOf LF o =? -1 then []
      else slice0 o (lastIndexOf LF o + 1)) = []
     \/ exists p, (if lastIndexOf LF o =? -1 then []
                   else slice0 o (lastIndexOf LF o + 1)) = p ++ [LF]).
Proof.
  destruct (last_LF_decompose o) as (pre & rem & -> & Hno & [->|[p ->]]).
  - exists rem. unfold lastIndexOf. rewrite app_nil_l, lastIndexOf_go_absent by done.
    simpl. auto.
  - exists rem. unfold lastIndexOf, slice0. rewrite <- app_assoc. cbn [app].
    rewrite lastIndexOf_go_last by done.
    destruct (Z.eqb_spec (0 + Z.of_nat (length p)) (-1)) as [E|_]; [lia|].
    replace (Z.to_nat (0 + Z.of_nat (length p) + 1)) with (length (p ++ [LF]))
      by (rewrite length_app; simpl; lia).
    change (p ++ LF :: rem) with (p ++ [LF] ++ rem).
    rewrite (app_assoc p [LF] rem), take_app_length.
    split_and!; [done|done|right; by exists p].
Qed.

(** C8.  The carriage-return branch of the loop does not look at the next
    character.  A carriage return erases the text since the last newline
    (["AAA\rBB"] renders as ["BB"]), and it does so as well when a newline
    follows it: ["AAA\r\nBB"] loses ["AAA"]. *)
Theorem carriage_return_before_newline_discards :
  convertAnsiToHtml (str "AAA" ++ [CR] ++ str "BB")
    = str "<pre style=" ++ dq (str "white-space:pre-wrap; margin:0")
      ++ str ">BB</pre>" /\
  convertAnsiToHtml (str "AAA" ++ [CR; LF] ++ str "BB")
    = str "<pre style=" ++ dq (str "white-space:pre-wrap; margin:0")
      ++ str "><br>BB</pre>".
Proof. split; vm_compute; reflexivity. Qed.

(** ** The classifier *)

Lemma trimStart_nil (s : text) : trimStart s = [] <-> forallb is_js_space s = true.
Proof.
  induction s as [|c s IH]; simpl; [done|].
  destruct (is_js_space c); simpl; [done|]. split; discriminate.
Qed.

Lemma trimStart_keeps (s : text) (c : ascii) :
  is_js_space c = false -> trimStart (s ++ [c]) <> [].
Proof.
  intros Hc. induction s as [|d s IH]; simpl.
  - by rewrite Hc.
  - destruct (is_js_space d); done.
Qed.

(** [line.trim()] is empty exactly for a line of white space only. *)
Lemma trim_nil (s : text) : trim s = [] <-> forallb is_js_space s = true.
Proof.
  rewrite <- trimStart_nil. unfold trim, trimEnd. split.
  - intros H. destruct (trimStart s) as [|c t] eqn:E; [done|]. exfalso.
    assert (is_js_space c = false) as Hc.
    { destruct s as [|d s']; simpl in E; [done|].
      revert E. clear. revert d. induction s' as [|e s' IH]; intros d; simpl.
      - destruct (is_js_space d) eqn:Ed; [done|]. by intros [= <- _].
      - destruct (is_js_space d) eqn:Ed; [apply IH|]. by intros [= <- _]. }
    apply (f_equal (@rev ascii)) in H. rewrite rev_involutive in H.
    simpl in H.
    destruct (rev t) as [|x r] eqn:Er.
    + simpl in H. by rewrite Hc in H.
    + assert (rev (c :: t) = (x :: r) ++ [c]) as Hrev by (simpl; by rewrite Er).
      change (rev t ++ [c]) with (rev (c :: t)) in H. rewrite <- Er in H.
      simpl in H. by apply (trimStart_keeps (rev t) c Hc).
  - intros ->. done.
Qed.

(** C4 (as the code has it).  Every complete line falls in exactly one of
    four cases: it begins with an opening brace and [JSON.parse] accepts it,
    and it is sent as one message event carrying the parsed value, whether
    or not that value has a [type] member; it begins with an opening brace
    and [JSON.parse] rejects it, and it is sent raw as one output event; it
    does not begin with an opening brace and is not all white space, and its
    rendering is sent as one output event; or it is empty or all white space
    and nothing is sent.  A message event is sent exactly when the line
    begins with an opening brace and parses. *)
Theorem classify_cases (JSON_parse : text -> option json) (line : text) :
  (forall j, startsWith (str "{") line = true -> JSON_parse line = Some j ->
     classify JSON_parse line = [Send ch_response (PJson j)]) /\
  (startsWith (str "{") line = true -> JSON_parse line = None ->
     classify JSON_parse line = [Send ch_output (PText line)]) /\
  (startsWith (str "{") line = false -> forallb is_js_space line = false ->
     classify JSON_parse line = [Send ch_output (PText (convertAnsiToHtml line))]) /\
  (startsWith (str "{") line = false -> forallb is_js_space line = true ->
     classify JSON_parse line = []) /\
  (count_sends ch_response (classify JSON_parse line) = 1%nat <->
     startsWith (str "{") line = true /\ exists j, JSON_parse line = Some j).
Proof.
  unfold classify.
  destruct (startsWith (str "{") line) eqn:Hs.
  - destruct (JSON_parse line) as [j|] eqn:Hp.
    + split_and!; try done.
      * by intros j' _ [= <-].
      * split; [eauto|done].
    + split_and!; try done.
      split; [done|]. by intros [_ [j [=]]].
  - destruct (truthy (trim line)) eqn:Ht.
    + assert (forallb is_js_space line = false) as Hw.
      { destruct (forallb is_js_space line) eqn:E; [|done].
        apply trim_nil in E. by rewrite E in Ht. }
      rewrite Hw. split_and!; try done. split; [done|]. by intros [[=] _].
    + assert (forallb is_js_space line = true) as Hw.
      { apply trim_nil. by destruct (trim line). }
      rewrite Hw. split_and!; try done. split; [done|]. by intros [[=] _].
Qed.

Lemma classify_cases_witness :
  classify json_parse (str "{" ++ dq (str "type") ++ str ":" ++ dq (str "step") ++ str "}")
  = [Send ch_response
       (PJson (JObject [(units_of (str "type"), JString (units_of (str "step")))]))].
Proof.
  destruct (classify_cases json_parse
              (str "{" ++ dq (str "type") ++ str ":" ++ dq (str "step") ++ str "}"))
    as (H & _).
  apply H; reflexivity.
Defined.

(** A line that parses as JSON and has no [type] member is sent as a message
    event all the same. *)
Lemma classify_message_without_type :
  exists j,
    json_parse (str "{}") = Some j /\
    has_field (str "type") j = false /\
    classify json_parse (str "{}") = [Send ch_response (PJson j)].
Proof. exists (JObject []). split_and!; reflexivity. Qed.

(** ** Commands *)

(** C7.  The command handler returns the not-running error object, and
    writes nothing, exactly when [emulatorProcess] is null; otherwise it
    writes the command followed by one line feed to the standard input of the
    current process and returns without an error.  The state is untouched in
    both cases. *)
Theorem sendCommand_spec (s : state) (command : text) :
  (emulatorProcess s = None ->
     emulator_command s command = (s, not_running)) /\
  (forall p, emulatorProcess s = Some p ->
     emulator_command s command
     = (s, [StdinWrite p (command ++ [LF]); Reply Undefined])) /\
  ((exists msg, Reply (ErrorObject msg) ∈ (emulator_command s command).2)
     <-> emulatorProcess s = None).
Proof.
  unfold emulator_command, not_running.
  destruct (emulatorProcess s) as [p|]; split_and!; try done.
  - by intros p' [= <-].
  - split; [|done]. intros [msg H]. simpl in H.
    apply elem_of_cons in H as [[=]|H].
    apply list_elem_of_singleton in H. done.
  - split; [done|]. intros _. eexists. simpl. apply list_elem_of_singleton. done.
Qed.

Lemma sendCommand_spec_witness :
  emulator_command {| emulatorProcess := Some 0%nat; procs := [closure_init]; timers := 0 |}
                   (str "step")
  = ({| emulatorProcess := Some 0%nat; procs := [closure_init]; timers := 0 |},
     [StdinWrite 0%nat (str "step" ++ [LF]); Reply Undefined]).
Proof.
  destruct (sendCommand_spec
              {| emulatorProcess := Some 0%nat; procs := [closure_init]; timers := 0 |}
              (str "step")) as (_ & H & _).
  apply H. reflexivity.
Defined.

(** ** Starting without an executable *)

(** C6 (as the code has it).  When there is no file at the place where the
    executable of the platform is looked for, nor at the fallback place, the
    start request shows one error dialog and returns normally: nothing is
    spawned, no event is sent on any channel, no exception leaves the call,
    and the state, including a process that may be running, is left as it
    was. *)
Theorem start_without_executable (h : host) (s : state)
    (programPath : text) (debugMode : bool) (p alt : list text) :
  primary_location h = Some p ->
  fallback_location h = Some alt ->
  existsSync h p = false ->
  existsSync h alt = false ->
  getEmulatorPath h = Some None /\
  emulator_start h s programPath debugMode
  = (s, [ShowErrorBox (str "Unsupported Platform")
                      (str "Your platform is not supported.");
         Reply Undefined]).
Proof.
  intros Hp Halt Hno Hno'.
  assert (getEmulatorPath h = Some None) as H.
  { unfold getEmulatorPath. by rewrite Hp, Hno, Halt, Hno'. }
  split; [done|]. unfold emulator_start, spawnEmulator. by rewrite H.
Qed.

Lemma start_without_executable_witness :
  emulator_start bare_host state_init (str "prog.ias") false
  = (state_init, [ShowErrorBox (str "Unsupported Platform")
                               (str "Your platform is not supported.");
                  Reply Undefined]).
Proof.
  apply (start_without_executable bare_host state_init (str "prog.ias") false
           [str "/opt/ias"; str "bin"; str "linux"; str "emulator.out"]
           [str "/opt/ias"; str "app.asar.unpacked"; str "bin"; str "linux";
            str "emulator.out"]);
    reflexivity.
Defined.

(** With no executable the start request sends no error event. *)
Lemma start_without_executable_no_error_event :
  getEmulatorPath bare_host = Some None /\
  count_sends ch_error
    (emulator_start bare_host state_init (str "prog.ias") false).2 = 0%nat.
Proof. split; reflexivity. Qed.

(** ** The output guard *)

Lemma total_length_nonneg (chunks : list text) : 0 <= total_length chunks.
Proof. induction chunks as [|c chunks IH]; simpl; lia. Qed.

Lemma stdout_data_within (JSON_parse : text -> option json) (g : option pid)
    (c : closure) (d : text) :
  totalOutput c + Z.of_nat (length d) <= MAX_TOTAL_OUTPUT ->
  stdout_data JSON_parse g c d
  = ({| buffer := (frame (buffer c) d).2;
        outputBuffer := outputBuffer c ++ d;
        totalOutput := totalOutput c + Z.of_nat (length d) |},
     flat_map (classify JSON_parse) (frame (buffer c) d).1).
Proof.
  intros H. unfold stdout_data.
  destruct (totalOutput c + Z.of_nat (length d) >? MAX_TOTAL_OUTPUT) eqn:E.
  - rewrite Z.gtb_ltb in E. apply Z.ltb_lt in E. lia.
  - by destruct (frame (buffer c) d).
Qed.

Lemma stdout_data_over (JSON_parse : text -> option json) (q : pid)
    (c : closure) (d : text) :
  totalOutput c + Z.of_nat (length d) > MAX_TOTAL_OUTPUT ->
  stdout_data JSON_parse (Some q) c d
  = ({| buffer := buffer c; outputBuffer := outputBuffer c;
        totalOutput := totalOutput c + Z.of_nat (length d) |},
     overflow_effects q).
Proof.
  intros H. unfold stdout_data.
  destruct (totalOutput c + Z.of_nat (length d) >? MAX_TOTAL_OUTPUT) eqn:E; [done|].
  rewrite Z.gtb_ltb in E. apply Z.ltb_ge in E. lia.
Qed.

Lemma stdout_session_app (JSON_parse : text -> option json) (g : option pid)
    (c : closure) (l1 l2 : list text) :
  stdout_session JSON_parse g c (l1 ++ l2)
  = ((stdout_session JSON_parse g (stdout_session JSON_parse g c l1).1 l2).1,
     (stdout_session JSON_parse g c l1).2
     ++ (stdout_session JSON_parse g (stdout_session JSON_parse g c l1).1 l2).2).
Proof.
  revert c. induction l1 as [|d l1 IH]; intros c.
  - simpl. by destruct (stdout_session JSON_parse g c l2).
  - cbn [app stdout_session]. destruct (stdout_data JSON_parse g c d) as [c1 effs].
    rewrite IH. destruct (stdout_session JSON_parse g c1 l1) as [c2 more].
    cbn [fst snd]. destruct (stdout_session JSON_parse g c2 l2) as [c3 more'].
    cbn [fst snd]. by rewrite app_assoc.
Qed.

(** Below the ceiling the handler is the framer followed by the classifier. *)
Lemma stdout_session_within (JSON_parse : text -> option json) (g : option pid)
    (chunks : list text) (c : closure) :
  totalOutput c + total_length chunks <= MAX_TOTAL_OUTPUT ->
  stdout_session JSON_parse g c chunks
  = ({| buffer := (feed (buffer c) chunks).2;
        outputBuffer := outputBuffer c ++ concat chunks;
        totalOutput := totalOutput c + total_length chunks |},
     flat_map (classify JSON_parse) (feed (buffer c) chunks).1).
Proof.
  revert c. induction chunks as [|d chunks IH]; intros c H.
  - destruct c. simpl. by rewrite app_nil_r, Z.add_0_r.
  - cbn [total_length fold_right] in H. fold (total_length chunks) in H.
    pose proof (total_length_nonneg chunks).
    cbn [stdout_session feed]. rewrite stdout_data_within by lia.
    rewrite IH by (simpl; lia). cbn [buffer outputBuffer totalOutput].
    destruct (frame (buffer c) d) as [lines b1]. cbn [fst snd].
    destruct (feed b1 chunks) as [more final]. cbn [fst snd concat].
    rewrite flat_map_app, <- app_assoc. f_equal. f_equal.
    cbn [total_length fold_right]. fold (total_length chunks). lia.
Qed.

(** Above the ceiling every chunk is answered by a kill and an error event,
    and nothing else. *)
Lemma stdout_session_over (JSON_parse : text -> option json) (q : pid)
    (chunks : list text) (c : closure) :
  totalOutput c > MAX_TOTAL_OUTPUT ->
  (stdout_session JSON_parse (Some q) c chunks).2
  = concat (replicate (length chunks) (overflow_effects q)).
Proof.
  revert c. induction chunks as [|d chunks IH]; intros c H; [done|].
  cbn [stdout_session]. rewrite stdout_data_over by lia.
  specialize (IH {| buffer := buffer c; outputBuffer := outputBuffer c;
                    totalOutput := totalOutput c + Z.of_nat (length d) |}).
  destruct (stdout_session _ _ _ chunks) as [c2 more]. cbn [fst snd] in *.
  rewrite IH by (simpl; lia). done.
Qed.

Lemma run_cons (JSON_parse : text -> option json) (h : host) (s : state)
    (e : event) (es : list event) :
  run JSON_parse h s (e :: es)
  = ((run JSON_parse h (step JSON_parse h s e).1 es).1,
     (step JSON_parse h s e).2 :: (run JSON_parse h (step JSON_parse h s e).1 es).2).
Proof.
  cbn [run]. destruct (step JSON_parse h s e) as [s1 effs].
  cbn [fst snd]. by destruct (run JSON_parse h s1 es).
Qed.

(** The exit handler clears [emulatorProcess] whichever process it holds:
    the exit of a process that has been replaced clears the handle of its
    successor. *)
Lemma stale_exit_clears_handle (JSON_parse : text -> option json) (h : host)
    (s : state) (p : pid) (code : option Z) :
  (p < length (procs s))%nat ->
  step JSON_parse h s (ProcExit p code)
  = (set_handle s None, [Send ch_exit (PNumber (code_or_0 code))]).
Proof.
  intros Hlt. destruct (lookup_lt_is_Some_2 (procs s) p Hlt) as [c Hc].
  cbn [step]. by rewrite Hc.
Qed.

Lemma run_app (JSON_parse : text -> option json) (h : host)
    (es1 es2 : list event) (s : state) :
  run JSON_parse h s (es1 ++ es2)
  = ((run JSON_parse h (run JSON_parse h s es1).1 es2).1,
     (run JSON_parse h s es1).2 ++ (run JSON_parse h (run JSON_parse h s es1).1 es2).2).
Proof.
  revert s. induction es1 as [|e es1 IH]; intros s.
  - cbn [app run fst snd]. by destruct (run JSON_parse h s es2).
  - cbn [app]. rewrite !run_cons, IH. done.
Qed.

(** A run of stdout chunks of one process is a run of its handler. *)
Lemma run_stdout (JSON_parse : text -> option json) (h : host) (p : pid)
    (chunks : list text) (s : state) (c : closure) :
  procs s !! p = Some c ->
  concat (run JSON_parse h s (map (StdoutData p) chunks)).2
    = (stdout_session JSON_parse (emulatorProcess s) c chunks).2 /\
  emulatorProcess (run JSON_parse h s (map (StdoutData p) chunks)).1
    = emulatorProcess s /\
  length (procs (run JSON_parse h s (map (StdoutData p) chunks)).1)
    = length (procs s).
Proof.
  revert s c. induction chunks as [|d chunks IH]; intros s c Hc; [done|].
  cbn [map]. rewrite run_cons. cbn [step stdout_session]. rewrite Hc.
  destruct (stdout_data JSON_parse (emulatorProcess s) c d) as [c1 effs] eqn:Hd.
  cbn [fst snd concat].
  assert (procs (with_closure s p c1) !! p = Some c1) as Hc1.
  { cbn [with_closure procs]. apply list_lookup_insert_eq.
    by apply lookup_lt_Some in Hc. }
  destruct (IH (with_closure s p c1) c1 Hc1) as (H1 & H2 & H3).
  cbn [with_closure emulatorProcess procs] in H1, H2, H3.
  rewrite length_insert in H3.
  destruct (stdout_session JSON_parse (emulatorProcess s) c1 chunks) as [c2 more].
  cbn [fst snd] in *. by rewrite H1.
Qed.

Lemma returns_normal (s : state) (path : list text) (args : list text) :
  returns (kill_current s ++ [Spawn (length (procs s)) path args])
  = kill_current s ++ [Spawn (length (procs s)) path args; Reply Undefined].
Proof.
  unfold returns, kill_current.
  destruct (emulatorProcess s); cbn [existsb app orb]; done.
Qed.

(** C1 (as the code has it).  In a session that is started, receives stdout
    chunks and exits, with no other request in between: the chunks received
    before the cumulative length first exceeds 65536 are framed and
    classified; the chunk that crosses the ceiling and every chunk received
    after it each cause one [kill()] call on the process and one overflow
    error event, and no output or message event; the exit of the process
    then sends exactly one exit event. *)
Theorem overflow_guard (JSON_parse : text -> option json) (h : host) (s : state)
    (path : list text) (programPath : text) (debugMode : bool)
    (before after : list text) (crossing : text) (code : option Z) :
  getEmulatorPath h = Some (Some path) ->
  total_length before <= MAX_TOTAL_OUTPUT ->
  total_length before + Z.of_nat (length crossing) > MAX_TOTAL_OUTPUT ->
  concat (run JSON_parse h s
            (session_events (length (procs s)) programPath debugMode
               (before ++ crossing :: after) code)).2
  = kill_current s
    ++ [Spawn (length (procs s)) path (launch_args programPath debugMode);
        Reply Undefined]
    ++ flat_map (classify JSON_parse) (feed [] before).1
    ++ concat (replicate (S (length after)) (overflow_effects (length (procs s))))
    ++ [Send ch_exit (PNumber (code_or_0 code))].
Proof.
  intros Hpath Hle Hgt. unfold session_events.
  set (p := length (procs s)).
  rewrite run_cons. cbn [snd concat step].
  unfold emulator_start, spawnEmulator. rewrite Hpath. cbn [fst snd].
  fold p. unfold p at 1. rewrite returns_normal. fold p. rewrite <- app_assoc. f_equal.
  cbn [app]. f_equal. f_equal.
  set (s1 := {| emulatorProcess := Some p; procs := procs s ++ [closure_init];
                timers := timers s |}).
  assert (procs s1 !! p = Some closure_init) as Hc.
  { unfold s1, p. cbn [procs]. apply list_lookup_middle. done. }
  rewrite run_app. cbn [snd]. rewrite concat_app.
  destruct (run_stdout JSON_parse h p (before ++ crossing :: after) s1 closure_init Hc)
    as (Heff & Hh & Hlen).
  rewrite Heff. cbn [s1 emulatorProcess].
  rewrite stdout_session_app.
  rewrite (stdout_session_within JSON_parse (Some p) before closure_init) by (simpl; lia).
  cbn [fst snd]. rewrite <- !app_assoc. f_equal.
  change (crossing :: after) with ([crossing] ++ after).
  rewrite stdout_session_app. cbn [stdout_session].
  rewrite stdout_data_over by (simpl; lia). cbn [fst snd].
  rewrite stdout_session_over by (simpl; lia).
  cbn [replicate concat]. rewrite app_nil_r, <- !app_assoc. f_equal. f_equal.
  change ([crossing] ++ after) with (crossing :: after).
  rewrite run_cons. cbn [snd run concat].
  rewrite (stale_exit_clears_handle JSON_parse h _ p code).
  - done.
  - rewrite Hlen. unfold s1. cbn [procs]. rewrite length_app. simpl. lia.
Qed.

Lemma overflow_guard_witness :
  concat (run json_parse linux_host state_init
            (session_events 0%nat (str "prog.ias") false
               ([str "ok" ++ [LF]] ++ big_chunk :: [str "late" ++ [LF]]) None)).2
  = [Spawn 0%nat [str "/opt/ias"; str "bin"; str "linux"; str "emulator.out"]
       [str "prog.ias"];
     Reply Undefined;
     Send ch_output (PText (convertAnsiToHtml (str "ok")));
     Kill 0%nat None; Send ch_error (PText overflow_message);
     Kill 0%nat None; Send ch_error (PText overflow_message);
     Send ch_exit (PNumber 0)].
Proof.
  apply (overflow_guard json_parse linux_host state_init
           [str "/opt/ias"; str "bin"; str "linux"; str "emulator.out"]
           (str "prog.ias") false
           [str "ok" ++ [LF]] [str "late" ++ [LF]] big_chunk None).
  - reflexivity.
  - vm_compute. discriminate.
  - vm_compute. reflexivity.
Defined.

(** A session fed 70000 characters in chunks of 1000 crosses the ceiling on
    its 66th chunk and reports the overflow on that chunk and on each of the
    four that follow. *)
Lemma overflow_reported_per_chunk :
  total_length (replicate 70 chunk_1000) = 70000 /\
  count_sends ch_error
    (concat (run json_parse linux_host state_init session_70000).2) = 5%nat /\
  count_sends ch_exit
    (concat (run json_parse linux_host state_init session_70000).2) = 1%nat.
Proof. split_and!; vm_compute; reflexivity. Qed.

(** ** The process handle *)


Lemma classify_targets (JSON_parse : text -> option json) (p : pid) (lines : list text) :
  Forall (fun e => targets p e = false) (flat_map (classify JSON_parse) lines).
Proof.
  induction lines as [|l lines IH]; simpl; [constructor|].
  apply Forall_app. split; [|done]. unfold classify.
  repeat case_match; repeat constructor.
Qed.

Lemma neq_targets (p q : pid) : Some q <> Some p -> (q =? p)%nat = false.
Proof. intros H. apply Nat.eqb_neq. congruence. Qed.

Lemma returns_Forall (P : effect -> Prop) (effs : list effect) :
  Forall P effs -> P (Reply Undefined) -> Forall P (returns effs).
Proof.
  intros HF HP. unfold returns.
  destruct (existsb _ effs); [done|]. apply Forall_app. by repeat constructor.
Qed.

Lemma spawnEmulator_gone (h : host) (p : pid) (s : state)
    (programPath : text) (debugMode : bool) :
  gone p s ->
  gone p (spawnEmulator h s programPath debugMode).1 /\
  Forall (fun x => targets p x = false) (spawnEmulator h s programPath debugMode).2.
Proof.
  intros [Hlt Hne]. unfold spawnEmulator.
  destruct (getEmulatorPath h) as [[path|]|]; cbn [fst snd].
  - split; [split; cbn [procs emulatorProcess]|].
    + rewrite length_app. simpl. lia.
    + intros [= E]. lia.
    + apply Forall_app. split; [|by repeat constructor]. unfold kill_current.
      destruct (emulatorProcess s) as [old|]; repeat constructor.
      simpl. by apply neq_targets.
  - split; [done|]. by repeat constructor.
  - split; [done|]. by repeat constructor.
Qed.

(** Once a process is no longer the current one it never is again, and no
    kill or write is addressed to it. *)
Lemma step_gone (JSON_parse : text -> option json) (h : host) (p : pid)
    (s : state) (e : event) :
  gone p s ->
  gone p (step JSON_parse h s e).1 /\
  Forall (fun x => targets p x = false) (step JSON_parse h s e).2.
Proof.
  intros Hg. pose proof Hg as [Hlt Hne].
  destruct e as [pp dm|cmd| |q d|q d|q m|q code| |]; cbn [step].
  - unfold emulator_start.
    pose proof (spawnEmulator_gone h p s pp dm Hg) as [Hg' HF].
    destruct (spawnEmulator h s pp dm) as [s' effs]. cbn [fst snd] in *.
    split; [done|]. by apply returns_Forall.
  - unfold emulator_command, not_running.
    destruct (emulatorProcess s) as [q|] eqn:E; cbn [fst snd]; (split; [done|]).
    + repeat constructor. cbn [targets]. apply neq_targets. congruence.
    + by repeat constructor.
  - unfold emulator_stop.
    destruct (emulatorProcess s) as [q|] eqn:E; cbn [fst snd].
    + split; [by split|]. repeat constructor. cbn [targets]. apply neq_targets. congruence.
    + split; [done|]. by repeat constructor.
  - destruct (procs s !! q) as [c|]; [|split; [done|constructor]].
    unfold stdout_data.
    destruct (totalOutput c + Z.of_nat (length d) >? MAX_TOTAL_OUTPUT).
    + destruct (emulatorProcess s) as [g|] eqn:E; cbn [fst snd].
      * split; [split; cbn [with_closure procs emulatorProcess];
                [by rewrite length_insert|congruence]|].
        repeat constructor. cbn [targets]. apply neq_targets. congruence.
      * split; [split; cbn [with_closure procs emulatorProcess];
                [by rewrite length_insert|congruence]|].
        by repeat constructor.
    + destruct (frame (buffer c) d) as [lines b']. cbn [fst snd].
      split; [split; cbn [with_closure procs emulatorProcess];
              [by rewrite length_insert|done]|].
      apply classify_targets.
  - destruct (procs s !! q) as [c|]; [|split; [done|constructor]].
    unfold stderr_data. cbn [fst snd].
    split; [split; cbn [with_closure procs emulatorProcess];
            [by rewrite length_insert|done]|].
    apply Forall_app. split; [destruct (includes _ d)|]; by repeat constructor.
  - destruct (procs s !! q) as [c|]; [|split; [done|constructor]].
    cbn [fst snd]. split; [by split|]. by repeat constructor.
  - destruct (procs s !! q) as [c|]; [|split; [done|constructor]].
    cbn [fst snd]. split; [by split|]. by repeat constructor.
  - destruct (timers s) as [|n]; [split; [done|constructor]|].
    unfold stop_timeout. cbn [emulatorProcess].
    destruct (emulatorProcess s) as [q|] eqn:E; cbn [fst snd].
    + split; [split; cbn [procs emulatorProcess]; [done|congruence]|].
      repeat constructor. cbn [targets]. apply neq_targets. congruence.
    + split; [split; cbn [procs emulatorProcess]; [done|congruence]|]. constructor.
  - unfold before_quit.
    destruct (emulatorProcess s) as [q|] eqn:E; cbn [fst snd].
    + split; [by split|]. repeat constructor. cbn [targets]. apply neq_targets. congruence.
    + split; [done|]. constructor.
Qed.

Lemma run_gone (JSON_parse : text -> option json) (h : host) (p : pid)
    (es : list event) (s : state) :
  gone p s ->
  gone p (run JSON_parse h s es).1 /\
  Forall (fun x => targets p x = false) (concat (run JSON_parse h s es).2).
Proof.
  revert s. induction es as [|e es IH]; intros s Hg.
  - split; [done|constructor].
  - rewrite run_cons. cbn [fst snd concat].
    destruct (step_gone JSON_parse h p s e Hg) as [Hg1 HF1].
    destruct (IH _ Hg1) as [Hg2 HF2].
    split; [done|]. apply Forall_app. done.
Qed.

(** With no process and no spawn, there stays no process and every command
    is refused. *)
Lemma run_no_spawn (JSON_parse : text -> option json) (h : host)
    (es : list event) (s : state) :
  emulatorProcess s = None ->
  no_spawn h es = true ->
  emulatorProcess (run JSON_parse h s es).1 = None /\
  commands_refused es (run JSON_parse h s es).2.
Proof.
  revert s. induction es as [|e es IH]; intros s Hs Hq; [done|].
  rewrite run_cons. cbn [fst snd commands_refused].
  cbn [no_spawn forallb] in Hq. apply andb_prop in Hq as [He Hes].
  assert (emulatorProcess (step JSON_parse h s e).1 = None /\
          match e with
          | IpcCommand _ => (step JSON_parse h s e).2 = not_running
          | _ => True
          end) as [Hs1 Hc].
  { destruct e as [pp dm|cmd| |q d|q d|q m|q code| |]; simpl.
    - unfold emulator_start, spawnEmulator. unfold has_emulator in He.
      destruct (getEmulatorPath h) as [[path|]|]; done.
    - unfold emulator_command. by rewrite Hs.
    - unfold emulator_stop. by rewrite Hs.
    - destruct (procs s !! q) as [c|]; [|done].
      by destruct (stdout_data JSON_parse (emulatorProcess s) c d).
    - by destruct (procs s !! q).
    - by destruct (procs s !! q).
    - by destruct (procs s !! q).
    - destruct (timers s); [done|]. unfold stop_timeout. simpl. by rewrite Hs.
    - unfold before_quit. by rewrite Hs. }
  destruct (IH _ Hs1 Hes) as [H1 H2]. done.
Qed.

(** C9.  Once the exit handler or the spawn-error handler of a spawned
    process [p] has run, [emulatorProcess] is null; it stays null, and every
    command is refused with the not-running error, as long as no start
    request spawns a process; and whatever happens afterwards, nothing is
    ever written (and no signal is sent) to [p] again. *)
Theorem exit_clears_handle (JSON_parse : text -> option json) (h : host)
    (s : state) (p : pid) (e : event) :
  (p < length (procs s))%nat ->
  (exists code, e = ProcExit p code) \/ (exists message, e = ProcError p message) ->
  emulatorProcess (step JSON_parse h s e).1 = None /\
  (exists arg, (step JSON_parse h s e).2 = [Send ch_exit arg]
            \/ (step JSON_parse h s e).2 = [Send ch_error arg]) /\
  (forall es,
     no_spawn h es = true ->
     emulatorProcess (run JSON_parse h (step JSON_parse h s e).1 es).1 = None /\
     commands_refused es (run JSON_parse h (step JSON_parse h s e).1 es).2) /\
  (forall es data,
     StdinWrite p data ∉ concat (run JSON_parse h (step JSON_parse h s e).1 es).2).
Proof.
  intros Hlt He.
  destruct (lookup_lt_is_Some_2 (procs s) p Hlt) as [c Hc].
  assert ((step JSON_parse h s e).1 = set_handle s None /\
          exists arg, (step JSON_parse h s e).2 = [Send ch_exit arg]
                   \/ (step JSON_parse h s e).2 = [Send ch_error arg]) as [Hst Heff].
  { destruct He as [[code ->]|[m ->]]; cbn [step]; rewrite Hc; cbn [fst snd]; eauto. }
  rewrite Hst. split_and!; [done|done| |].
  - intros es Hq. by apply run_no_spawn.
  - intros es data Hin.
    destruct (run_gone JSON_parse h p es (set_handle s None)) as [_ HF]; [by split|].
    rewrite Forall_forall in HF. specialize (HF _ Hin). simpl in HF.
    by rewrite Nat.eqb_refl in HF.
Qed.

Lemma exit_clears_handle_witness :
  emulatorProcess
    (step json_parse linux_host
       {| emulatorProcess := Some 0%nat; procs := [closure_init]; timers := 0 |}
       (ProcExit 0%nat (Some 3))).1 = None.
Proof.
  apply (exit_clears_handle json_parse linux_host
           {| emulatorProcess := Some 0%nat; procs := [closure_init]; timers := 0 |}
           0%nat (ProcExit 0%nat (Some 3))).
  - simpl. lia.
  - left. by exists (Some 3).
Defined.

(** C3.  Two start requests in succession, then the exit of the first
    process, then a command: the first process is sent [kill()] and its exit
    yields one exit event, but its exit handler also clears
    [emulatorProcess], which by then holds the second process; the command
    is refused as not running and nothing is written to the second
    process. *)
Theorem restart_then_old_exit_orphans_new_process :
  run json_parse linux_host state_init
    [IpcStart (str "a.ias") false; IpcStart (str "b.ias") false;
     ProcExit 0%nat None; IpcCommand (str "step")]
  = ({| emulatorProcess := None; procs := [closure_init; closure_init]; timers := 0 |},
     [[Spawn 0%nat [str "/opt/ias"; str "bin"; str "linux"; str "emulator.out"]
         [str "a.ias"];
       Reply Undefined];
      [Kill 0%nat None;
       Spawn 1%nat [str "/opt/ias"; str "bin"; str "linux"; str "emulator.out"]
         [str "b.ias"];
       Reply Undefined];
      [Send ch_exit (PNumber 0)];
      [Reply (ErrorObject (str "Emulator not running"))]]).
Proof. vm_compute. reflexivity. Qed.

(** ** Stopping *)

Lemma emulator_stop_active (s : state) (p : pid) :
  emulatorProcess s = Some p ->
  emulator_stop s
  = ({| emulatorProcess := None; procs := procs s; timers := S (timers s) |},
     [Kill p (Some SIGTERM); SetTimeout 1000; Reply Undefined]).
Proof. intros H. unfold emulator_stop. by rewrite H. Qed.

Lemma emulator_stop_idle (s : state) :
  emulatorProcess s = None -> emulator_stop s = (s, [Reply Undefined]).
Proof. intros H. unfold emulator_stop. by rewrite H. Qed.

(** After a stop request for a spawned process [p], no later event, timer
    expiry included, sends any signal to [p]. *)
Lemma stopped_never_signalled (JSON_parse : text -> option json) (h : host)
    (s : state) (p : pid) (es : list event) (sig : option signal) :
  emulatorProcess s = Some p ->
  (p < length (procs s))%nat ->
  Kill p sig ∉ concat (run JSON_parse h (emulator_stop s).1 es).2.
Proof.
  intros Hp Hlt Hin. rewrite (emulator_stop_active s p Hp) in Hin. cbn [fst] in Hin.
  destruct (run_gone JSON_parse h p es
              {| emulatorProcess := None; procs := procs s; timers := S (timers s) |})
    as [_ HF]; [by split|].
  rewrite Forall_forall in HF. specialize (HF _ Hin). simpl in HF.
  by rewrite Nat.eqb_refl in HF.
Qed.

(** C5.  A stop request with no process does nothing.  With a process it
    sends SIGTERM, schedules the callback after 1000 ms and clears
    [emulatorProcess]; the callback reads [emulatorProcess] when it runs,
    finds it null, and sends no SIGKILL to the stopped process, although that
    process has not exited.  If a new process was started in between, the
    callback sends SIGKILL to the new process. *)
Theorem stop_timer_misses_stopped_process :
  run json_parse linux_host state_init [IpcStop]
    = (state_init, [[Reply Undefined]]) /\
  run json_parse linux_host state_init
    [IpcStart (str "a.ias") false; IpcStop; TimerFire]
  = ({| emulatorProcess := None; procs := [closure_init]; timers := 0 |},
     [[Spawn 0%nat [str "/opt/ias"; str "bin"; str "linux"; str "emulator.out"]
         [str "a.ias"];
       Reply Undefined];
      [Kill 0%nat (Some SIGTERM); SetTimeout 1000; Reply Undefined];
      []]) /\
  (run json_parse linux_host state_init
     [IpcStart (str "a.ias") false; IpcStop; IpcStart (str "b.ias") false; TimerFire]).2
  = [[Spawn 0%nat [str "/opt/ias"; str "bin"; str "linux"; str "emulator.out"]
        [str "a.ias"];
      Reply Undefined];
     [Kill 0%nat (Some SIGTERM); SetTimeout 1000; Reply Undefined];
     [Spawn 1%nat [str "/opt/ias"; str "bin"; str "linux"; str "emulator.out"]
        [str "b.ias"];
      Reply Undefined];
     [Kill 1%nat (Some SIGKILL)]].
Proof. split_and!; vm_compute; reflexivity. Qed.

(** * Further properties *)

(** ** Escaping *)

Ltac not_in_literal :=
  let H := fresh in
  intros H; vm_compute in H;
  repeat (apply elem_of_cons in H as [H|H]; [discriminate H|]);
  by apply elem_of_nil in H.

Lemma htmlEscapeChar_cases (c : ascii) :
  (c = "&"%char /\ htmlEscapeChar c = str "&amp;") \/
  (c = "<"%char /\ htmlEscapeChar c = str "&lt;") \/
  (c = ">"%char /\ htmlEscapeChar c = str "&gt;") \/
  (c = DQUOTE /\ htmlEscapeChar c = str "&quot;") \/
  (c <> "&"%char /\ c <> "<"%char /\ c <> ">"%char /\ c <> DQUOTE /\
   htmlEscapeChar c = [c]).
Proof.
  unfold htmlEscapeChar.
  destruct (Ascii.eqb_spec c "&"); [auto|].
  destruct (Ascii.eqb_spec c "<"); [auto|].
  destruct (Ascii.eqb_spec c ">"); [auto|].
  destruct (Ascii.eqb_spec c DQUOTE); [auto 6|]. auto 10.
Qed.

(** X1.  The text returned by [htmlEscape] holds no [<], no [>] and no double
    quote, whatever the input. *)
Theorem htmlEscape_safe (s : text) :
  ("<"%char ∉ htmlEscape s) /\ (">"%char ∉ htmlEscape s) /\ (DQUOTE ∉ htmlEscape s).
Proof.
  induction s as [|c s (IH1 & IH2 & IH3)].
  - split_and!; apply not_elem_of_nil.
  - change (htmlEscape (c :: s)) with (htmlEscapeChar c ++ htmlEscape s).
    rewrite !elem_of_app.
    destruct (htmlEscapeChar_cases c)
      as [[_ ->]|[[_ ->]|[[_ ->]|[[_ ->]|(H1 & H2 & H3 & H4 & ->)]]]].
    1-4: split_and!; intros [H|H]; try done; revert H; not_in_literal.
    split_and!; intros [H|H]; try done;
      apply list_elem_of_singleton in H; congruence.
Qed.

(** Text without the four special characters is returned as it is. *)
Lemma htmlEscape_id (s : text) :
  "&"%char ∉ s -> "<"%char ∉ s -> ">"%char ∉ s -> DQUOTE ∉ s ->
  htmlEscape s = s.
Proof.
  induction s as [|c s IH]; intros H1 H2 H3 H4; [done|].
  apply not_elem_of_cons in H1 as [? ?], H2 as [? ?], H3 as [? ?], H4 as [? ?].
  change (htmlEscape (c :: s)) with (htmlEscapeChar c ++ htmlEscape s).
  rewrite IH by done.
  destruct (htmlEscapeChar_cases c)
    as [[-> _]|[[-> _]|[[-> _]|[[-> _]|(_ & _ & _ & _ & ->)]]]]; done.
Qed.

Lemma htmlEscape_no_LF (s : text) : LF ∉ s -> LF ∉ htmlEscape s.
Proof.
  induction s as [|c s IH]; intros Hno; [apply not_elem_of_nil|].
  apply not_elem_of_cons in Hno as [Hc Hs].
  change (htmlEscape (c :: s)) with (htmlEscapeChar c ++ htmlEscape s).
  rewrite elem_of_app. intros [H|H]; [|by apply IH].
  destruct (htmlEscapeChar_cases c)
    as [[_ E]|[[_ E]|[[_ E]|[[_ E]|(_ & _ & _ & _ & E)]]]]; rewrite E in H.
  1-4: revert H; not_in_literal.
  apply list_elem_of_singleton in H. congruence.
Qed.

(** ** Style codes *)

(** X2.  A reset code makes [sgrToStyle] forget the style it was given and
    every code before the reset: the result is that of the codes after the
    reset applied to the default style. *)
Theorem sgrToStyle_reset (before after : list (option Z)) (cur : style) :
  sgrToStyle (before ++ Some 0 :: after) cur = sgrToStyle after default_style.
Proof.
  unfold sgrToStyle. rewrite fold_left_app. done.
Qed.

(** X3.  A bright background code (100 to 107) does not set a background: it
    is mapped to 40-47 by subtracting 60, [CSS_COLORS] has no such key, and
    the background becomes null; the other attributes are kept.  A normal
    background code (40 to 47) sets the colour of the foreground code ten
    below it. *)
Theorem sgr_background_codes (cur : style) (code : Z) :
  (100 <= code <= 107 ->
   sgrApply cur (Some code)
   = {| color := color cur; background := None; bold := bold cur;
        underline := underline cur; inverse := inverse cur |}) /\
  (40 <= code <= 47 ->
   sgrApply cur (Some code)
   = {| color := color cur; background := CSS_COLORS (code - 10); bold := bold cur;
        underline := underline cur; inverse := inverse cur |} /\
   is_Some (CSS_COLORS (code - 10))).
Proof.
  split; intros H.
  - assert (code = 100 \/ code = 101 \/ code = 102 \/ code = 103 \/
            code = 104 \/ code = 105 \/ code = 106 \/ code = 107) as Hc by lia.
    destruct Hc as [->|[->|[->|[->|[->|[->|[->| ->]]]]]]]; reflexivity.
  - assert (code = 40 \/ code = 41 \/ code = 42 \/ code = 43 \/
            code = 44 \/ code = 45 \/ code = 46 \/ code = 47) as Hc by lia.
    destruct Hc as [->|[->|[->|[->|[->|[->|[->| ->]]]]]]]; split; (reflexivity || by eexists).
Qed.

Lemma sgr_background_codes_witness :
  sgrApply {| color := Some (str "red"); background := Some (str "blue");
              bold := true; underline := false; inverse := false |} (Some 104)
  = {| color := Some (str "red"); background := None;
       bold := true; underline := false; inverse := false |}.
Proof.
  destruct (sgr_background_codes
              {| color := Some (str "red"); background := Some (str "blue");
                 bold := true; underline := false; inverse := false |} 104) as [H _].
  apply H. lia.
Defined.

(** X4.  A code that is none of 0, 1, 4, 7, 21, 22, 24, 30-37, 40-47, 90-97,
    100-107 leaves the style as it is, and so does [NaN]. *)
Theorem sgr_unknown_code_ignored (cur : style) (code : Z) :
  code <> 0 -> code <> 1 -> code <> 4 -> code <> 7 ->
  code <> 21 -> code <> 22 -> code <> 24 ->
  ~ (30 <= code <= 37) -> ~ (40 <= code <= 47) ->
  ~ (90 <= code <= 97) -> ~ (100 <= code <= 107) ->
  sgrApply cur (Some code) = cur /\ sgrApply cur None = cur.
Proof.
  intros. split; [|done]. unfold sgrApply.
  repeat match goal with
         | |- context [?a =? ?b] => destruct (Z.eqb_spec a b); [lia|]
         end.
  cbn [orb].
  repeat match goal with
         | |- context [?a <=? ?b] => destruct (Z.leb_spec a b)
         end; cbn [andb orb]; (done || lia).
Qed.

Lemma sgr_unknown_code_ignored_witness :
  sgrApply {| color := Some (str "red"); background := None;
              bold := true; underline := false; inverse := false |} (Some 38)
  = {| color := Some (str "red"); background := None;
       bold := true; underline := false; inverse := false |}.
Proof.
  apply (sgr_unknown_code_ignored
           {| color := Some (str "red"); background := None;
              bold := true; underline := false; inverse := false |} 38); lia.
Defined.

(** X5.  [styleToSpanOpen] returns the empty string exactly when the style
    has no colour, no background, no bold and no underline: the inverse flag
    on its own opens no span. *)
Theorem styleToSpanOpen_empty (cur : style) :
  styleToSpanOpen cur = [] <->
  colour_set (color cur) = false /\ colour_set (background cur) = false /\
  bold cur = false /\ underline cur = false.
Proof.
  destruct cur as [[[|a c]|] [[|b g]|] [] [] []]; cbn; split;
    (done || (intros (? & ? & ? & ?); done) || (intros H; discriminate H) || auto).
Qed.

(** ** Rendering *)

Lemma is_plain_spec (c : ascii) :
  is_plain c = true -> c <> ESC /\ c <> CR /\ c <> LF.
Proof.
  unfold is_plain. intros H.
  apply andb_prop in H as [H H3]. apply andb_prop in H as [H1 H2].
  apply negb_true_iff in H1, H2, H3.
  by apply Ascii.eqb_neq in H1, H2, H3.
Qed.

(** A run of ordinary characters is escaped and appended, with the style
    state untouched. *)
Lemma while_loop_plain (input t : text) :
  forall (pre : text) (st : scan) (fuel : nat),
    input = pre ++ t ->
    idx st = length pre ->
    forallb is_plain t = true ->
    (length t <= fuel)%nat ->
    while_loop fuel input st
    = {| idx := length input; out := out st ++ htmlEscape t;
         cur := cur st; openSpan := openSpan st |}.
Proof.
  induction t as [|c t IH]; intros pre st fuel Hin Hidx Hpl Hfuel.
  - rewrite app_nil_r in Hin. subst input. rewrite while_loop_done by lia.
    destruct st. simpl in *. by rewrite app_nil_r, Hidx.
  - destruct fuel as [|fuel]; [simpl in Hfuel; lia|].
    cbn [forallb] in Hpl. apply andb_prop in Hpl as [Hc Ht].
    apply is_plain_spec in Hc as (H1 & H2 & H3).
    assert (input !! idx st = Some c) as Hlk.
    { rewrite Hin, Hidx. apply list_lookup_middle. done. }
    cbn [while_loop].
    assert ((idx st <? length input)%nat = true) as ->.
    { apply Nat.ltb_lt. apply lookup_lt_Some in Hlk. done. }
    rewrite (loop_body_ordinary input st c Hlk H1 H2 H3).
    rewrite (IH (pre ++ [c])).
    + unfold emit_literal. cbn [out cur openSpan].
      change (htmlEscape (c :: t)) with (htmlEscapeChar c ++ htmlEscape t).
      change (htmlEscape [c]) with (htmlEscapeChar c ++ []).
      by rewrite app_nil_r, <- app_assoc.
    + by rewrite <- app_assoc.
    + unfold emit_literal. cbn [idx]. rewrite length_app, Hidx. simpl. lia.
    + done.
    + simpl in Hfuel. lia.
Qed.

Lemma replace_newlines_id (r s : text) : LF ∉ s -> replace_newlines r s = s.
Proof.
  induction s as [|c s IH]; intros Hno; [done|].
  apply not_elem_of_cons in Hno as [Hc Hs].
  unfold replace_newlines in *. cbn [flat_map].
  assert (Ascii.eqb c LF = false) as -> by (apply Ascii.eqb_neq; congruence).
  by rewrite IH.
Qed.

Lemma plain_no_LF (t : text) : forallb is_plain t = true -> LF ∉ t.
Proof.
  induction t as [|c t IH]; intros H; [apply not_elem_of_nil|].
  cbn [forallb] in H. apply andb_prop in H as [Hc Ht].
  apply is_plain_spec in Hc as (_ & _ & Hc).
  apply not_elem_of_cons. split; [congruence|by apply IH].
Qed.

(** X6.  A text without escape character, carriage return and line feed is
    rendered as its HTML-escaped form between the opening and the closing
    [pre] tag, with no span. *)
Theorem convertAnsiToHtml_plain (t : text) :
  forallb is_plain t = true ->
  convertAnsiToHtml t = pre_open ++ htmlEscape t ++ str "</pre>".
Proof.
  intros Hpl. unfold convertAnsiToHtml.
  rewrite (while_loop_plain t t [] scan_init (length t)) by done.
  unfold finish. cbn [openSpan scan_init truthy out app].
  rewrite replace_newlines_id by (apply htmlEscape_no_LF, plain_no_LF, Hpl).
  unfold pre_open. by rewrite <- !app_assoc.
Qed.

Lemma convertAnsiToHtml_plain_witness :
  convertAnsiToHtml (str "a<b & c")
  = pre_open ++ htmlEscape (str "a<b & c") ++ str "</pre>".
Proof. apply convertAnsiToHtml_plain. reflexivity. Defined.

Lemma replace_newlines_no_LF (r s : text) : LF ∉ r -> LF ∉ replace_newlines r s.
Proof.
  intros Hr. induction s as [|c s IH]; [apply not_elem_of_nil|].
  unfold replace_newlines in *. cbn [flat_map]. rewrite elem_of_app.
  intros [H|H]; [|done].
  destruct (Ascii.eqb_spec c LF) as [->|Hc]; [done|].
  apply list_elem_of_singleton in H. congruence.
Qed.

Lemma truthy_or_nil (x : text) : (if truthy x then x else []) = x.
Proof. by destruct x. Qed.




Lemma scan_params_to_end (rest : text) (j : nat) (acc : text) :
  "m"%char ∉ rest ->
  scan_params rest j acc = (acc ++ rest, (j + length rest)%nat).
Proof.
  revert j acc. induction rest as [|c rest IH]; intros j acc Hno; simpl.
  - by rewrite app_nil_r, Nat.add_0_r.
  - apply not_elem_of_cons in Hno as [Hc Hr].
    assert (Ascii.eqb c "m" = false) as -> by (apply Ascii.eqb_neq; congruence).
    rewrite IH by done. rewrite <- app_assoc. f_equal. lia.
Qed.

Lemma scan_params_to_m (params rest : text) (j : nat) (acc : text) :
  "m"%char ∉ params ->
  scan_params (params ++ "m"%char :: rest) j acc
  = (acc ++ params, (j + length params)%nat).
Proof.
  revert j acc. induction params as [|c params IH]; intros j acc Hno; simpl.
  - by rewrite app_nil_r, Nat.add_0_r.
  - apply not_elem_of_cons in Hno as [Hc Hr].
    assert (Ascii.eqb c "m" = false) as -> by (apply Ascii.eqb_neq; congruence).
    rewrite IH by done. rewrite <- app_assoc. f_equal. lia.
Qed.

Lemma while_loop_S (fuel : nat) (input : text) (st : scan) :
  while_loop (S fuel) input st
  = if (idx st <? length input)%nat
    then while_loop fuel input (loop_body input st) else st.
Proof. done. Qed.

(** X9.  A control sequence that is never terminated degrades to text: for
    an escape character and an opening bracket followed by ordinary
    characters with no [m] among them, the escape character itself, the
    bracket and the escaped rest are rendered, with no span. *)
Theorem convertAnsiToHtml_unterminated (t : text) :
  forallb is_plain t = true ->
  "m"%char ∉ t ->
  convertAnsiToHtml (ESC :: "["%char :: t)
  = pre_open ++ [ESC] ++ str "[" ++ htmlEscape t ++ str "</pre>".
Proof.
  intros Hpl Hm. unfold convertAnsiToHtml.
  set (input := ESC :: "["%char :: t).
  change (length input) with (S (S (length t))).
  rewrite while_loop_S. change (idx scan_init <? length input)%nat with true.
  cbv iota.
  assert (loop_body input scan_init = emit_literal ESC scan_init) as ->.
  { unfold loop_body. change (input !! idx scan_init) with (Some ESC).
    change (input !! S (idx scan_init)) with (Some "["%char).
    cbv beta iota. rewrite Ascii.eqb_refl. cbn [is_char andb]. rewrite Ascii.eqb_refl.
    change (drop (idx scan_init + 2) input) with t.
    rewrite scan_params_to_end by done. cbn [idx scan_init Nat.add].
    rewrite (proj2 (lookup_ge_None input _)); [done|].
    unfold input. simpl. lia. }
  rewrite (while_loop_plain input ("["%char :: t) [ESC]); [|done|done| |simpl; lia].
  2:{ cbn [forallb]. by rewrite Hpl. }
  unfold finish, emit_literal. cbn [openSpan scan_init truthy out app].
  change (htmlEscape [ESC]) with [ESC].
  change (htmlEscape ("["%char :: t)) with ("["%char :: htmlEscape t).
  rewrite replace_newlines_id.
  - unfold pre_open. by rewrite <- !app_assoc.
  - change ([ESC] ++ "["%char :: htmlEscape t) with (ESC :: "["%char :: htmlEscape t).
    rewrite !not_elem_of_cons. split_and!; [done|done|].
    apply htmlEscape_no_LF, plain_no_LF, Hpl.
Qed.

Lemma convertAnsiToHtml_unterminated_witness :
  convertAnsiToHtml (ESC :: "["%char :: str "31;1 red")
  = pre_open ++ [ESC] ++ str "[" ++ htmlEscape (str "31;1 red") ++ str "</pre>".
Proof.
  apply convertAnsiToHtml_unterminated; [reflexivity|not_in_literal].
Defined.

Lemma CSS_COLORS_clean (k : Z) : colour_clean (CSS_COLORS k).
Proof.
  unfold CSS_COLORS.
  repeat match goal with
         | |- context [k =? ?b] => destruct (k =? b); [not_in_literal|]
         end.
  done.
Qed.

Lemma sgrApply_clean (cur : style) (code : option Z) :
  colour_clean (color cur) /\ colour_clean (background cur) ->
  colour_clean (color (sgrApply cur code)) /\
  colour_clean (background (sgrApply cur code)).
Proof.
  intros [Hc Hb]. destruct code as [code|]; [|done]. unfold sgrApply.
  repeat match goal with
         | |- context [if ?b then _ else _] =>
             destruct b; [split; cbn [color background default_style];
                          (done || apply CSS_COLORS_clean)|]
         end.
  done.
Qed.

Lemma sgrToStyle_clean (codes : list (option Z)) (cur : style) :
  colour_clean (color cur) /\ colour_clean (background cur) ->
  colour_clean (color (sgrToStyle codes cur)) /\
  colour_clean (background (sgrToStyle codes cur)).
Proof.
  revert cur. induction codes as [|c codes IH]; intros cur H; [done|].
  apply (IH (sgrApply cur c)), sgrApply_clean, H.
Qed.

Lemma join_no_LF (sep : text) (parts : list text) :
  LF ∉ sep -> Forall (fun p => LF ∉ p) parts -> LF ∉ join sep parts.
Proof.
  intros Hsep. induction parts as [|p parts IH]; intros HF; [apply not_elem_of_nil|].
  apply Forall_cons in HF as [Hp HF]. destruct parts as [|q parts]; [done|].
  change (join sep (p :: q :: parts)) with (p ++ sep ++ join sep (q :: parts)).
  rewrite !elem_of_app. intros [H|[H|H]]; [done|done|by apply IH].
Qed.

Lemma push_colour_clean (prefix : text) (x : option text) (styles : list text) :
  LF ∉ prefix -> colour_clean x ->
  Forall (fun p => LF ∉ p) styles ->
  Forall (fun p => LF ∉ p) (push_colour prefix x styles).
Proof.
  intros Hp Hx HF. unfold push_colour. destruct x as [c|]; [|done].
  destruct (truthy c); [|done]. apply Forall_app. split; [done|].
  constructor; [|constructor]. rewrite elem_of_app. by intros [?|?].
Qed.

Lemma push_if_clean (b : bool) (x : text) (styles : list text) :
  LF ∉ x -> Forall (fun p => LF ∉ p) styles ->
  Forall (fun p => LF ∉ p) (push_if b x styles).
Proof.
  intros Hx HF. unfold push_if. destruct b; [|done].
  apply Forall_app. split; [done|]. by constructor.
Qed.

Lemma styleToSpanOpen_no_LF (cur : style) :
  colour_clean (color cur) -> colour_clean (background cur) ->
  LF ∉ styleToSpanOpen cur.
Proof.
  intros Hc Hb. unfold styleToSpanOpen.
  set (styles := push_if _ _ (push_if _ _ _)).
  assert (Forall (fun p => LF ∉ p) styles) as HF.
  { unfold styles. apply push_if_clean; [not_in_literal|].
    apply push_if_clean; [not_in_literal|].
    destruct (inverse cur); repeat apply push_colour_clean;
      try done; try not_in_literal. }
  destruct styles as [|p ps]; [apply not_elem_of_nil|].
  rewrite !elem_of_app. intros [H|[H|[H|[H|H]]]].
  3: { revert H. apply join_no_LF; [not_in_literal|done]. }
  all: revert H; not_in_literal.
Qed.

(** X10.  One well-formed control sequence followed by ordinary text: the
    parameters between the bracket and the [m] are parsed and applied to the
    default style, the text is escaped inside the span of that style, and
    the span is closed; when the style writes no span (a reset, say) the
    text stands alone.  None of the characters of the control sequence
    reaches the output. *)
Theorem convertAnsiToHtml_styled_text (params t : text) :
  "m"%char ∉ params ->
  forallb is_plain t = true ->
  convertAnsiToHtml (ESC :: "["%char :: params ++ "m"%char :: t)
  = pre_open
    ++ styleToSpanOpen (sgrToStyle (parse_params params) default_style)
    ++ htmlEscape t
    ++ (if truthy (styleToSpanOpen (sgrToStyle (parse_params params) default_style))
        then str "</span>" else [])
    ++ str "</pre>".
Proof.
  intros Hm Hpl. unfold convertAnsiToHtml.
  set (input := ESC :: "["%char :: params ++ "m"%char :: t).
  set (sp := styleToSpanOpen (sgrToStyle (parse_params params) default_style)).
  assert (length input = S (S (length params + S (length t)))) as Hlen.
  { unfold input. simpl. rewrite length_app. done. }
  rewrite Hlen at 1. rewrite while_loop_S.
  assert ((idx scan_init <? length input)%nat = true) as ->.
  { apply Nat.ltb_lt. rewrite Hlen. simpl. lia. }
  assert (loop_body input scan_init
          = {| idx := S (2 + length params); out := sp;
               cur := sgrToStyle (parse_params params) default_style;
               openSpan := sp |}) as ->.
  { unfold loop_body. change (input !! idx scan_init) with (Some ESC).
    change (input !! S (idx scan_init)) with (Some "["%char).
    cbv beta iota. rewrite Ascii.eqb_refl. cbn [is_char andb]. rewrite Ascii.eqb_refl.
    change (drop (idx scan_init + 2) input) with (params ++ "m"%char :: t).
    rewrite scan_params_to_m by done. cbn [idx scan_init Nat.add app].
    rewrite (list_lookup_middle (ESC :: "["%char :: params) t "m"%char) by done.
    cbn [is_char]. rewrite Ascii.eqb_refl. cbn [negb openSpan truthy out cur].
    fold (parse_params params). fold sp. by rewrite !truthy_or_nil. }
  rewrite (while_loop_plain input t (ESC :: "["%char :: params ++ ["m"%char]));
    [|by (unfold input; cbn [app]; rewrite <- app_assoc)| |done|lia].
  2:{ cbn [idx length]. rewrite length_app. simpl. lia. }
  unfold finish. cbn [openSpan out cur].
  destruct (sgrToStyle_clean (parse_params params) default_style) as [Hc Hb]; [done|].
  pose proof (styleToSpanOpen_no_LF _ Hc Hb) as Hsp. fold sp in Hsp.
  pose proof (htmlEscape_no_LF t (plain_no_LF t Hpl)) as Ht.
  unfold pre_open. destruct (truthy sp).
  - rewrite replace_newlines_id.
    + by rewrite <- !app_assoc.
    + rewrite !elem_of_app. intros [[H|H]|H]; [done|done|].
      revert H. not_in_literal.
  - rewrite replace_newlines_id.
    + by rewrite <- !app_assoc.
    + rewrite elem_of_app. by intros [H|H].
Qed.

Lemma convertAnsiToHtml_styled_text_witness :
  convertAnsiToHtml (ESC :: "["%char :: str "1;32" ++ "m"%char :: str "ok <1>")
  = pre_open ++ str "<span style=" ++ dq (str "color:green;font-weight:700") ++ str ">"
    ++ str "ok &lt;1&gt;" ++ str "</span>" ++ str "</pre>".
Proof.
  apply (convertAnsiToHtml_styled_text (str "1;32") (str "ok <1>"));
    [not_in_literal|reflexivity].
Defined.

(** ** Locating the executable *)

(** X11.  [getEmulatorPath] returns only a path at which a file exists; it
    is the primary location, or the fallback location when nothing exists at
    the primary one; and a file at the primary location is returned whatever
    is at the fallback. *)
Theorem getEmulatorPath_found (h : host) (p : list text) :
  (getEmulatorPath h = Some (Some p) ->
   existsSync h p = true /\
   (primary_location h = Some p \/
    (fallback_location h = Some p /\
     exists q, primary_location h = Some q /\ existsSync h q = false))) /\
  (primary_location h = Some p -> existsSync h p = true ->
   getEmulatorPath h = Some (Some p)).
Proof.
  unfold getEmulatorPath. split.
  - destruct (primary_location h) as [q|]; [|done].
    destruct (existsSync h q) eqn:Hq.
    + intros [= <-]. auto.
    + destruct (fallback_location h) as [alt|]; [|done].
      destruct (existsSync h alt) eqn:Halt; [|done].
      intros [= <-]. split; [done|]. right. split; [done|]. by exists q.
  - intros -> ->. done.
Qed.

Lemma getEmulatorPath_found_witness :
  getEmulatorPath linux_host
  = Some (Some [str "/opt/ias"; str "bin"; str "linux"; str "emulator.out"]).
Proof.
  apply (getEmulatorPath_found linux_host); reflexivity.
Defined.

(** X12.  On a platform other than win32, linux and darwin the directory
    name is null, [path.join] is handed that null and throws: the start
    request ends with the exception, the error dialog is not shown, nothing
    is spawned or killed and the state is unchanged. *)
Theorem start_on_other_platform (h : host) (s : state)
    (programPath : text) (debugMode : bool) :
  process_platform h = other_platform ->
  getEmulatorPath h = None /\
  emulator_start h s programPath debugMode = (s, [ThrewTypeError]).
Proof.
  intros Hpf.
  assert (getEmulatorPath h = None) as H.
  { unfold getEmulatorPath, primary_location, resourcePath. rewrite Hpf.
    by destruct (isPackaged h). }
  split; [done|]. unfold emulator_start, spawnEmulator. by rewrite H.
Qed.

Lemma start_on_other_platform_witness :
  emulator_start
    {| process_platform := other_platform; isPackaged := true;
       resourcesPath := str "/opt/ias/resources"; dirname := str "/opt/ias";
       existsSync := fun _ => true |}
    state_init (str "prog.ias") true
  = (state_init, [ThrewTypeError]).
Proof. apply start_on_other_platform. reflexivity. Defined.

(** ** Sessions *)

(** X13.  A start request that finds the executable spawns exactly one
    process and makes it the current one, with an empty line buffer and a
    zero output count of its own; the buffers and counts of the processes
    spawned before are left as they were, pending stop timers stay pending,
    and the process that was current, if any, is sent one [kill()]. *)
Theorem start_fresh_session (h : host) (s : state) (path : list text)
    (programPath : text) (debugMode : bool) :
  getEmulatorPath h = Some (Some path) ->
  emulatorProcess (emulator_start h s programPath debugMode).1
    = Some (length (procs s)) /\
  procs (emulator_start h s programPath debugMode).1 !! length (procs s)
    = Some closure_init /\
  (forall q c, procs s !! q = Some c ->
     procs (emulator_start h s programPath debugMode).1 !! q = Some c) /\
  timers (emulator_start h s programPath debugMode).1 = timers s /\
  (emulator_start h s programPath debugMode).2
  = kill_current s
    ++ [Spawn (length (procs s)) path (launch_args programPath debugMode);
        Reply Undefined].
Proof.
  intros Hpath. unfold emulator_start, spawnEmulator. rewrite Hpath.
  cbn [fst snd emulatorProcess procs timers]. split_and!; [done| | |done|].
  - by apply list_lookup_middle.
  - intros q c Hq. by apply lookup_app_l_Some.
  - apply returns_normal.
Qed.

Lemma start_fresh_session_witness :
  procs (emulator_start linux_host
           {| emulatorProcess := Some 0%nat;
              procs := [{| buffer := str "half a li"; outputBuffer := [];
                           totalOutput := 9 |}];
              timers := 0 |}
           (str "prog.ias") true).1 !! 1%nat
  = Some closure_init.
Proof.
  destruct (start_fresh_session linux_host
              {| emulatorProcess := Some 0%nat;
                 procs := [{| buffer := str "half a li"; outputBuffer := [];
                              totalOutput := 9 |}];
                 timers := 0 |}
              [str "/opt/ias"; str "bin"; str "linux"; str "emulator.out"]
              (str "prog.ias") true) as (_ & H & _); [reflexivity|exact H].
Defined.

Lemma step_handle_latest (JSON_parse : text -> option json) (h : host)
    (s : state) (e : event) :
  (forall q, emulatorProcess s = Some q -> S q = length (procs s)) ->
  forall q, emulatorProcess (step JSON_parse h s e).1 = Some q ->
            S q = length (procs (step JSON_parse h s e).1).
Proof.
  intros Hinv q.
  destruct e as [pp dm|cmd| |r d|r d|r m|r code| |]; cbn [step].
  - unfold emulator_start, spawnEmulator.
    destruct (getEmulatorPath h) as [[path|]|]; cbn [fst emulatorProcess procs].
    + intros [= <-]. rewrite length_app. simpl. lia.
    + apply Hinv.
    + apply Hinv.
  - unfold emulator_command. destruct (emulatorProcess s) eqn:E; cbn [fst];
      rewrite ?E; [apply Hinv|done].
  - unfold emulator_stop. destruct (emulatorProcess s) eqn:E; cbn [fst]; [done|].
    by rewrite E.
  - destruct (procs s !! r) as [c|]; [|apply Hinv].
    destruct (stdout_data JSON_parse (emulatorProcess s) c d) as [c' effs].
    cbn [fst with_closure emulatorProcess procs]. rewrite length_insert. apply Hinv.
  - destruct (procs s !! r) as [c|]; [|apply Hinv].
    destruct (stderr_data c d) as [c' effs].
    cbn [fst with_closure emulatorProcess procs]. rewrite length_insert. apply Hinv.
  - destruct (procs s !! r); [done|apply Hinv].
  - destruct (procs s !! r); [done|apply Hinv].
  - destruct (timers s); [apply Hinv|]. unfold stop_timeout. cbn [emulatorProcess].
    destruct (emulatorProcess s) eqn:E; cbn [fst emulatorProcess procs];
      rewrite ?E; [apply Hinv|done].
  - unfold before_quit. destruct (emulatorProcess s) eqn:E; cbn [fst]; [done|].
    by rewrite E.
Qed.

(** X14.  Whatever requests and process events have been handled since the
    application started, [emulatorProcess] is either null or the process
    spawned last: a process that has been replaced can no longer be reached
    by a command, a stop request or a timer. *)
Theorem handle_is_latest_process (JSON_parse : text -> option json) (h : host)
    (es : list event) (q : pid) :
  emulatorProcess (run JSON_parse h state_init es).1 = Some q ->
  S q = length (procs (run JSON_parse h state_init es).1).
Proof.
  assert (forall s,
            (forall q, emulatorProcess s = Some q -> S q = length (procs s)) ->
            forall q, emulatorProcess (run JSON_parse h s es).1 = Some q ->
                      S q = length (procs (run JSON_parse h s es).1)) as H.
  { induction es as [|e es IH]; intros s Hinv; [done|].
    rewrite run_cons. cbn [fst]. apply IH.
    by apply step_handle_latest. }
  apply H. done.
Qed.

Lemma handle_is_latest_process_witness :
  1%nat = length (procs (run json_parse linux_host state_init
                           [IpcStart (str "a.ias") false]).1).
Proof.
  apply (handle_is_latest_process json_parse linux_host
           [IpcStart (str "a.ias") false] 0%nat).
  reflexivity.
Defined.

(** ** The two output channels *)

(** X15.  The stderr handler sends the raw chunk as one error event, last,
    preceded by one output event carrying the rendered chunk exactly when the
    chunk contains ["Error parsing"]; and it leaves the stdout line buffer
    and the output count alone, so that what the stdout handler does with the
    next chunk is the same as if the stderr chunk had not arrived. *)
Theorem stderr_is_isolated (JSON_parse : text -> option json) (g : option pid)
    (c : closure) (errorStr data : text) :
  (stderr_data c errorStr).2
  = (if includes (str "Error parsing") errorStr
     then [Send ch_output (PText (convertAnsiToHtml errorStr))] else [])
    ++ [Send ch_error (PText errorStr)] /\
  count_sends ch_error (stderr_data c errorStr).2 = 1%nat /\
  (stdout_data JSON_parse g (stderr_data c errorStr).1 data).2
  = (stdout_data JSON_parse g c data).2 /\
  buffer (stdout_data JSON_parse g (stderr_data c errorStr).1 data).1
  = buffer (stdout_data JSON_parse g c data).1 /\
  totalOutput (stdout_data JSON_parse g (stderr_data c errorStr).1 data).1
  = totalOutput (stdout_data JSON_parse g c data).1.
Proof.
  split_and!.
  - done.
  - unfold stderr_data. cbn [snd]. by destruct (includes _ errorStr).
  - unfold stdout_data, stderr_data. cbn [fst buffer totalOutput outputBuffer].
    destruct (_ >? _); [by destruct g|]. by destruct (frame (buffer c) data).
  - unfold stdout_data, stderr_data. cbn [fst buffer totalOutput outputBuffer].
    destruct (_ >? _); [by destruct g|]. by destruct (frame (buffer c) data).
  - unfold stdout_data, stderr_data. cbn [fst buffer totalOutput outputBuffer].
    destruct (_ >? _); [by destruct g|]. by destruct (frame (buffer c) data).
Qed.



(** X17.  The overflow guard acts on [emulatorProcess], not on the process
    whose output overflowed.  After a stop request the variable is null, and
    an overflowing chunk of the stopped process makes the handler throw
    before any error event is sent; after a restart it holds the new process,
    and an overflowing chunk of the old process kills the new one. *)
Theorem overflow_guard_uses_shared_handle (JSON_parse : text -> option json)
    (h : host) (s : state) (p : pid) (c : closure) (data : text) :
  emulatorProcess s = Some p ->
  procs s !! p = Some c ->
  totalOutput c + Z.of_nat (length data) > MAX_TOTAL_OUTPUT ->
  (run JSON_parse h s [IpcStop; StdoutData p data]).2
  = [[Kill p (Some SIGTERM); SetTimeout 1000; Reply Undefined]; [ThrewTypeError]] /\
  (forall path programPath debugMode,
     getEmulatorPath h = Some (Some path) ->
     (run JSON_parse h s [IpcStart programPath debugMode; StdoutData p data]).2
     = [[Kill p None;
         Spawn (length (procs s)) path (launch_args programPath debugMode);
         Reply Undefined];
        [Kill (length (procs s)) None; Send ch_error (PText overflow_message)]]).
Proof.
  intros Hp Hc Hover.
  assert (forall g s', procs s' !! p = Some c -> emulatorProcess s' = g ->
            (step JSON_parse h s' (StdoutData p data)).2
            = match g with
              | Some q => overflow_effects q
              | None => [ThrewTypeError]
              end) as Hstep.
  { intros g s' Hc' Hg. cbn [step]. rewrite Hc', Hg. unfold stdout_data.
    destruct (Z.gtb_spec (totalOutput c + Z.of_nat (length data)) MAX_TOTAL_OUTPUT);
      [by destruct g|lia]. }
  split.
  - rewrite !run_cons. cbn [snd run].
    change (step JSON_parse h s IpcStop) with (emulator_stop s).
    rewrite (emulator_stop_active s p Hp). cbn [fst snd].
    by rewrite (Hstep None).
  - intros path pp dm Hpath. rewrite !run_cons. cbn [snd run].
    change (step JSON_parse h s (IpcStart pp dm)) with (emulator_start h s pp dm).
    unfold emulator_start, spawnEmulator. rewrite Hpath. cbn [fst snd].
    rewrite returns_normal. unfold kill_current. rewrite Hp. cbn [app].
    rewrite (Hstep (Some (length (procs s)))); [done| |done].
    cbn [procs]. by apply lookup_app_l_Some.
Qed.

Lemma overflow_guard_uses_shared_handle_witness :
  (run json_parse linux_host
     {| emulatorProcess := Some 0%nat;
        procs := [{| buffer := []; outputBuffer := []; totalOutput := 65536 |}];
        timers := 0 |}
     [IpcStop; StdoutData 0%nat (str "x")]).2
  = [[Kill 0%nat (Some SIGTERM); SetTimeout 1000; Reply Undefined]; [ThrewTypeError]].
Proof.
  destruct (overflow_guard_uses_shared_handle json_parse linux_host
              {| emulatorProcess := Some 0%nat;
                 procs := [{| buffer := []; outputBuffer := []; totalOutput := 65536 |}];
                 timers := 0 |}
              0%nat {| buffer := []; outputBuffer := []; totalOutput := 65536 |}
              (str "x")) as [H _]; [reflexivity|reflexivity|reflexivity|exact H].
Defined.

(** ** What each handler may do *)





(** ** More on framing *)

Lemma pop_Some {A} (l a : list A) (x : A) : pop l = (a, Some x) -> l = a ++ [x].
Proof.
  destruct l as [|y l]; [done|].
  destruct (exists_last (l:=y :: l)) as (l' & z & ->); [done|].
  rewrite pop_snoc. by intros [= -> ->].
Qed.

Lemma split_lines_go_clean (s : text) :
  forall cur, LF ∉ cur -> Forall (fun l => LF ∉ l) (split_lines_go cur s).
Proof.
  assert (forall cur c, LF ∉ cur -> c <> LF -> LF ∉ cur ++ [c]) as Hsnoc.
  { intros cur c Hc Hne. rewrite elem_of_app, list_elem_of_singleton.
    intros [?|?]; [done|congruence]. }
  induction s as [|a|a b s IH1 IH2] using list_ind2; intros cur Hcur.
  - by repeat constructor.
  - simpl. destruct (Ascii.eqb_spec a LF) as [->|Ha].
    + repeat constructor; [done|apply not_elem_of_nil].
    + destruct (Ascii.eqb a CR); repeat constructor; by apply Hsnoc.
  - rewrite split_lines_go_cons.
    destruct (Ascii.eqb_spec a LF) as [->|Ha].
    { constructor; [done|]. apply IH2, not_elem_of_nil. }
    destruct (Ascii.eqb a CR).
    + destruct (Ascii.eqb b LF).
      * constructor; [done|]. apply IH1, not_elem_of_nil.
      * apply IH2. by apply Hsnoc.
    + apply IH2. by apply Hsnoc.
Qed.

(** X19.  No line produced by the framer contains a line feed, and neither
    does the pending buffer, whatever the chunks were. *)
Theorem framer_lines_hold_no_LF (chunks : list text) :
  Forall (fun l => LF ∉ l) (feed [] chunks).1 /\ (LF ∉ (feed [] chunks).2).
Proof.
  destruct (feed_spec chunks [] (not_elem_of_nil _)) as (lines & rem & Hpop & Hno & ->).
  cbn [fst snd]. split; [|done].
  apply pop_Some in Hpop.
  pose proof (split_lines_go_clean (concat chunks) [] (not_elem_of_nil _)) as HF.
  cbn [app] in Hpop. unfold split_lines in Hpop. rewrite Hpop in HF.
  by apply Forall_app in HF as [HF _].
Qed.

Lemma split_lines_go_rebuild (s : text) :
  forall cur,
  exists lines terms rem,
    split_lines_go cur s = lines ++ [rem] /\
    length terms = length lines /\
    Forall is_terminator terms /\
    cur ++ s = concat (zip_with app lines terms) ++ rem.
Proof.
  induction s as [|a|a b s IH1 IH2] using list_ind2; intros cur.
  - exists [], [], cur. by rewrite app_nil_r.
  - simpl. destruct (Ascii.eqb_spec a LF) as [->|Ha].
    + exists [cur], [[LF]], []. split_and!; [done|done| |].
      * constructor; [by left|constructor].
      * simpl. by rewrite !app_nil_r.
    + exists [], [], (cur ++ [a]). by destruct (Ascii.eqb a CR).
  - rewrite split_lines_go_cons.
    destruct (Ascii.eqb_spec a LF) as [->|Ha].
    { destruct (IH2 []) as (lines & terms & rem & -> & Hlen & HF & Heq).
      exists (cur :: lines), ([LF] :: terms), rem. split_and!; [done|simpl; lia| |].
      - constructor; [by left|done].
      - cbn [zip_with concat]. cbn [app] in Heq.
        rewrite <- !app_assoc. cbn [app]. by rewrite Heq. }
    destruct (Ascii.eqb_spec a CR) as [->|Ha'].
    + destruct (Ascii.eqb_spec b LF) as [->|Hb].
      * destruct (IH1 []) as (lines & terms & rem & -> & Hlen & HF & Heq).
        exists (cur :: lines), ([CR; LF] :: terms), rem.
        split_and!; [done|simpl; lia| |].
        -- constructor; [by right|done].
        -- cbn [zip_with concat]. cbn [app] in Heq.
           rewrite <- !app_assoc. cbn [app]. by rewrite Heq.
      * destruct (IH2 (cur ++ [CR])) as (lines & terms & rem & -> & Hlen & HF & Heq).
        exists lines, terms, rem. split_and!; [done..|].
        by rewrite <- Heq, <- app_assoc.
    + destruct (IH2 (cur ++ [a])) as (lines & terms & rem & -> & Hlen & HF & Heq).
      exists lines, terms, rem. split_and!; [done..|].
      by rewrite <- Heq, <- app_assoc.
Qed.

(** X20.  The framer loses nothing: the text received so far is the lines
    produced, each followed by a terminator that is a line feed or a
    carriage return and a line feed, followed by the pending buffer. *)
Theorem framer_loses_nothing (chunks : list text) :
  exists terms,
    length terms = length (feed [] chunks).1 /\
    Forall is_terminator terms /\
    concat chunks
    = concat (zip_with app (feed [] chunks).1 terms) ++ (feed [] chunks).2.
Proof.
  destruct (feed_spec chunks [] (not_elem_of_nil _)) as (lines & rem & Hpop & _ & ->).
  destruct (split_lines_go_rebuild (concat chunks) [])
    as (lines' & terms & rem' & Hsplit & Hlen & HF & Heq).
  cbn [app] in Hpop, Heq. unfold split_lines in Hpop.
  rewrite Hsplit, pop_snoc in Hpop. injection Hpop as -> ->.
  exists terms. done.
Qed.

(** X21.  As long as the total length stays within the ceiling, the events
    a process's stdout produces depend only on the text, not on how it was
    cut into chunks: they are the classification of the lines of the
    concatenation. *)
Theorem stdout_events_ignore_chunking (JSON_parse : text -> option json)
    (g : option pid) (chunks : list text) :
  total_length chunks <= MAX_TOTAL_OUTPUT ->
  (stdout_session JSON_parse g closure_init chunks).2
  = flat_map (classify JSON_parse) (spec_lines (concat chunks)).1.
Proof.
  intros Hle. rewrite stdout_session_within by (simpl; lia). cbn [snd buffer closure_init].
  destruct (feed_spec chunks [] (not_elem_of_nil _)) as (lines & rem & Hpop & _ & ->).
  cbn [app] in Hpop. rewrite split_lines_spec in Hpop. by injection Hpop as -> _.
Qed.

Lemma stdout_events_ignore_chunking_witness :
  (stdout_session json_parse (Some 0%nat) closure_init
     [str "PRI"; str "NT 1" ++ [CR]; [LF] ++ str "{}" ++ [LF] ++ str "tail"]).2
  = flat_map (classify json_parse)
      (spec_lines (concat [str "PRI"; str "NT 1" ++ [CR];
                           [LF] ++ str "{}" ++ [LF] ++ str "tail"])).1.
Proof. apply stdout_events_ignore_chunking. vm_compute. discriminate. Defined.

(** ** Restarting *)

(** X22.  A process started within the grace window of a stop request is the
    one the stop timer kills: after a stop of the current process and a
    start that spawns, the expiry of the timer sends SIGKILL to the new
    process. *)
Theorem stop_timer_hits_restarted_process (JSON_parse : text -> option json)
    (h : host) (s : state) (p : pid) (path : list text)
    (programPath : text) (debugMode : bool) :
  emulatorProcess s = Some p ->
  getEmulatorPath h = Some (Some path) ->
  (run JSON_parse h s [IpcStop; IpcStart programPath debugMode; TimerFire]).2
  = [[Kill p (Some SIGTERM); SetTimeout 1000; Reply Undefined];
     [Spawn (length (procs s)) path (launch_args programPath debugMode);
      Reply Undefined];
     [Kill (length (procs s)) (Some SIGKILL)]].
Proof.
  intros Hp Hpath. rewrite !run_cons. cbn [snd run].
  change (step JSON_parse h s IpcStop) with (emulator_stop s).
  rewrite (emulator_stop_active s p Hp). cbn [fst snd]. f_equal.
  set (s1 := {| emulatorProcess := None; procs := procs s; timers := S (timers s) |}).
  change (step JSON_parse h s1 (IpcStart programPath debugMode))
    with (emulator_start h s1 programPath debugMode).
  unfold emulator_start, spawnEmulator. rewrite Hpath. cbn [fst snd].
  rewrite returns_normal. done.
Qed.

Lemma stop_timer_hits_restarted_process_witness :
  (run json_parse linux_host
     {| emulatorProcess := Some 0%nat; procs := [closure_init]; timers := 0 |}
     [IpcStop; IpcStart (str "b.ias") true; TimerFire]).2
  = [[Kill 0%nat (Some SIGTERM); SetTimeout 1000; Reply Undefined];
     [Spawn 1%nat [str "/opt/ias"; str "bin"; str "linux"; str "emulator.out"]
        (launch_args (str "b.ias") true);
      Reply Undefined];
     [Kill 1%nat (Some SIGKILL)]].
Proof.
  apply (stop_timer_hits_restarted_process json_parse linux_host
           {| emulatorProcess := Some 0%nat; procs := [closure_init]; timers := 0 |}
           0%nat); reflexivity.
Defined.

(** X23.  Replacing a running process loses the handle of its successor:
    after a start that spawns while a process is current, the exit of the
    replaced process sends its exit event and clears [emulatorProcess], so
    that the next command is refused as not running although the new
    process has not exited. *)
Theorem replaced_process_exit_clears_successor (JSON_parse : text -> option json)
    (h : host) (s : state) (p : pid) (c : closure) (path : list text)
    (programPath command : text) (debugMode : bool) (code : option Z) :
  emulatorProcess s = Some p ->
  procs s !! p = Some c ->
  getEmulatorPath h = Some (Some path) ->
  run JSON_parse h s
    [IpcStart programPath debugMode; ProcExit p code; IpcCommand command]
  = ({| emulatorProcess := None; procs := procs s ++ [closure_init];
        timers := timers s |},
     [[Kill p None;
       Spawn (length (procs s)) path (launch_args programPath debugMode);
       Reply Undefined];
      [Send ch_exit (PNumber (code_or_0 code))];
      not_running]).
Proof.
  intros Hp Hc Hpath.
  assert (step JSON_parse h s (IpcStart programPath debugMode)
          = ({| emulatorProcess := Some (length (procs s));
                procs := procs s ++ [closure_init]; timers := timers s |},
             [Kill p None;
              Spawn (length (procs s)) path (launch_args programPath debugMode);
              Reply Undefined])) as H1.
  { cbn [step]. unfold emulator_start, spawnEmulator. rewrite Hpath.
    rewrite returns_normal. unfold kill_current. by rewrite Hp. }
  rewrite run_cons, H1. cbn [fst snd].
  rewrite run_cons, stale_exit_clears_handle.
  2:{ cbn [procs]. rewrite length_app. apply lookup_lt_Some in Hc. lia. }
  cbn [fst snd]. rewrite run_cons. done.
Qed.

Lemma replaced_process_exit_clears_successor_witness :
  (run json_parse linux_host
     {| emulatorProcess := Some 0%nat; procs := [closure_init]; timers := 0 |}
     [IpcStart (str "b.ias") false; ProcExit 0%nat (Some 143);
      IpcCommand (str "step")]).2
  = [[Kill 0%nat None;
      Spawn 1%nat [str "/opt/ias"; str "bin"; str "linux"; str "emulator.out"]
        (launch_args (str "b.ias") false);
      Reply Undefined];
     [Send ch_exit (PNumber 143)];
     not_running].
Proof.
  rewrite (replaced_process_exit_clears_successor json_parse linux_host
             {| emulatorProcess := Some 0%nat; procs := [closure_init]; timers := 0 |}
             0%nat closure_init
             [str "/opt/ias"; str "bin"; str "linux"; str "emulator.out"]);
    reflexivity.
Defined.

(** ** The managed listeners of preload.js *)

Lemma ipc_off_single (w : wrapper) : ipc_off [w] w = [].
Proof. unfold ipc_off. simpl. by rewrite Nat.eqb_refl. Qed.

Lemma off_current_tidy (st : preload) (k : slot) : tidy st -> off_current st k = [].
Proof.
  intros Ht. unfold off_current. rewrite (Ht k).
  destruct (listeners st k); [apply ipc_off_single|done].
Qed.

Lemma api_on_tidy (st : preload) (k : slot) (callback : nat) :
  tidy st -> tidy (api_on st k callback).
Proof.
  intros Ht k'. unfold api_on. cbn [registered listeners]. unfold slot_update.
  destruct (slot_eqb k k'); [|apply Ht]. by rewrite off_current_tidy.
Qed.

Lemma remove_slot_tidy (st : preload) (k : slot) : tidy st -> tidy (remove_slot st k).
Proof.
  intros Ht k'. unfold remove_slot. cbn [registered listeners]. unfold slot_update.
  destruct (slot_eqb k k'); [|apply Ht]. by rewrite off_current_tidy.
Qed.

Lemma removeListeners_tidy (st : preload) : tidy st -> tidy (removeListeners st).
Proof.
  intros Ht. unfold removeListeners. cbn [fold_left].
  by repeat apply remove_slot_tidy.
Qed.

Lemma api_run_tidy (calls : list api_call) (st : preload) :
  tidy st -> tidy (fold_left api_step calls st).
Proof.
  revert st. induction calls as [|c calls IH]; intros st Ht; [done|].
  cbn [fold_left]. apply IH. destruct c; [by apply api_on_tidy|by apply removeListeners_tidy].
Qed.

(** X24.  However often and in whatever order the renderer registers
    callbacks and removes them, [ipcRenderer] never holds more than one
    listener per emulator channel; right after a registration the channel
    delivers to exactly the callback just given, and right after
    [removeListeners] no channel delivers to anything. *)
Theorem preload_listeners_managed (calls : list api_call) (k : slot) (callback : nat) :
  (length (registered (fold_left api_step calls preload_init) k) <= 1)%nat /\
  delivered (api_on (fold_left api_step calls preload_init) k callback) k = [callback] /\
  (forall k', delivered (removeListeners (fold_left api_step calls preload_init)) k' = []).
Proof.
  assert (tidy (fold_left api_step calls preload_init)) as Ht.
  { by apply api_run_tidy. }
  split_and!.
  - rewrite (Ht k). destruct (listeners _ k); simpl; lia.
  - unfold delivered, api_on. cbn [registered]. unfold slot_update.
    assert (slot_eqb k k = true) as -> by (by destruct k).
    by rewrite off_current_tidy.
  - intros k'. unfold delivered.
    pose proof (removeListeners_tidy _ Ht k') as Hr. rewrite Hr.
    assert (listeners (removeListeners (fold_left api_step calls preload_init)) k' = None)
      as ->; [|done].
    unfold removeListeners. cbn [fold_left remove_slot listeners]. unfold slot_update.
    by destruct k'.
Qed.

(** ** The memory controls *)

Lemma clamp_range (num min max : Z) : min <= max -> min <= clamp num min max <= max.
Proof. unfold clamp. lia. Qed.

Lemma control_step_range (st : memory_controls) (e : control_event) :
  0 <= memoryStart st <= 4095 /\ 0 <= memoryLines st <= 4096 ->
  0 <= memoryStart (control_step st e) <= 4095 /\
  0 <= memoryLines (control_step st e) <= 4096.
Proof.
  intros [H1 H2].
  destruct e; cbn [control_step memoryStart memoryLines]; split;
    first [done | apply clamp_range; lia].
Qed.

(** X25.  Whatever is typed into the two memory inputs, the start address
    stays between 0 and 4095 and the number of lines between 0 and 4096; a
    value that [parseInt] reads within the range is taken as it is, and an
    unreadable one counts as 0. *)
Theorem memory_controls_in_range (events : list control_event) (n : Z) :
  (0 <= memoryStart (fold_left control_step events controls_init) <= 4095 /\
   0 <= memoryLines (fold_left control_step events controls_init) <= 4096) /\
  (0 <= n <= 4095 ->
   memoryStart (control_step (fold_left control_step events controls_init)
                  (MemoryStartChange (Some n))) = n) /\
  memoryStart (control_step (fold_left control_step events controls_init)
                 (MemoryStartChange None)) = 0.
Proof.
  split; [|split].
  - assert (forall st,
              0 <= memoryStart st <= 4095 /\ 0 <= memoryLines st <= 4096 ->
              0 <= memoryStart (fold_left control_step events st) <= 4095 /\
              0 <= memoryLines (fold_left control_step events st) <= 4096) as H.
    { induction events as [|e events IH]; intros st Hst; [done|].
      cbn [fold_left]. by apply IH, control_step_range. }
    apply H. simpl. lia.
  - intros Hn. cbn [control_step memoryStart]. unfold clamp, number_or.
    destruct (Z.eqb_spec n 0); lia.
  - done.
Qed.

Lemma memory_controls_in_range_witness :
  memoryStart (control_step (fold_left control_step
                               [MemoryLinesChange (Some 99999)] controls_init)
                 (MemoryStartChange (Some 4095))) = 4095.
Proof.
  destruct (memory_controls_in_range [MemoryLinesChange (Some 99999)] 4095)
    as (_ & H & _).
  apply H. lia.
Defined.

(** ** The displayed file name *)

Lemma split_char_go_no_sep (sep : ascii) (cur s : text) :
  sep ∉ s -> split_char_go sep cur s = [cur ++ s].
Proof.
  revert cur. induction s as [|c s IH]; intros cur Hno; simpl.
  - by rewrite app_nil_r.
  - apply not_elem_of_cons in Hno as [Hc Hs].
    assert (Ascii.eqb c sep = false) as -> by (apply Ascii.eqb_neq; congruence).
    rewrite IH by done. by rewrite <- app_assoc.
Qed.

Lemma split_char_go_after_sep (sep : ascii) (p cur t : text) :
  exists l, split_char_go sep cur (p ++ sep :: t) = l ++ split_char_go sep [] t.
Proof.
  revert cur. induction p as [|c p IH]; intros cur; simpl.
  - rewrite Ascii.eqb_refl. by exists [cur].
  - destruct (Ascii.eqb c sep).
    + destruct (IH []) as [l ->]. by exists (cur :: l).
    + apply IH.
Qed.

Lemma last_sep_decompose (sep : ascii) (s : text) :
  exists pre rem, s = pre ++ rem /\ (sep ∉ rem) /\
                  (pre = [] \/ exists p, pre = p ++ [sep]).
Proof.
  induction s as [|c s IH] using rev_ind.
  - exists [], []. split_and!; [done|apply not_elem_of_nil|by left].
  - destruct (Ascii.eqb_spec c sep) as [->|Hc].
    + exists (s ++ [sep]), []. rewrite app_nil_r.
      split_and!; [done|apply not_elem_of_nil|right; by exists s].
    + destruct IH as (pre & rem & -> & Hno & Hpre).
      exists pre, (rem ++ [c]). rewrite app_assoc. split_and!; [done| |done].
      rewrite elem_of_app, list_elem_of_singleton. intros [?|?]; [done|congruence].
Qed.

(** X27.  For a non-empty path the header shows its last component: the
    part after the last slash, which holds no slash; when the path ends with
    a slash, or holds none (a Windows path), the whole path is shown.  The
    text shown is never empty. *)
Theorem getFileName_last_component (f : text) :
  f <> [] ->
  getFileName (Some f) <> [] /\
  exists dir,
    f = dir ++ getFileName (Some f) /\
    ((("/"%char ∉ getFileName (Some f)) /\ (dir = [] \/ exists d, dir = d ++ ["/"%char]))
     \/ (dir = [] /\ exists d, f = d ++ ["/"%char])).
Proof.
  intros Hne. unfold getFileName.
  assert (truthy f = true) as -> by (by destruct f).
  destruct (last_sep_decompose "/" f) as (pre & rem & Hf & Hno & Hpre).
  assert ((pop (split_char "/" f)).2 = Some rem) as ->.
  { unfold split_char. rewrite Hf. destruct Hpre as [->|[p ->]].
    - cbn [app]. by rewrite split_char_go_no_sep.
    - rewrite <- app_assoc. cbn [app].
      destruct (split_char_go_after_sep "/" p [] rem) as [l ->].
      rewrite split_char_go_no_sep by done. by rewrite pop_snoc. }
  cbn [default]. unfold or_default. destruct rem as [|r rem].
  - cbn [truthy]. split; [done|]. exists []. split; [done|]. right. split; [done|].
    rewrite app_nil_r in Hf. destruct Hpre as [->|[p ->]]; [done|]. by exists p.
  - cbn [truthy]. split; [done|]. exists pre. split; [done|]. by left.
Qed.

Lemma getFileName_last_component_witness :
  getFileName (Some (str "/home/me/programs/sum.ias")) <> [].
Proof.
  apply (getFileName_last_component (str "/home/me/programs/sum.ias")).
  discriminate.
Defined.

(** ** The value returned by the renderer *)

Lemma while_loop_split (input : text) (n m : nat) (st : scan) :
  while_loop (n + m) input st = while_loop m input (while_loop n input st).
Proof.
  revert st. induction n as [|n IH]; intros st; [done|].
  cbn [Nat.add]. rewrite !while_loop_S.
  destruct (idx st <? length input)%nat eqn:E; [apply IH|].
  apply Nat.ltb_ge in E. by rewrite while_loop_done.
Qed.

(** A stretch of ordinary characters in the middle of the input. *)
Lemma while_loop_plain_prefix (input t : text) :
  forall (pre rest : text) (st : scan),
    input = pre ++ t ++ rest ->
    idx st = length pre ->
    forallb is_plain t = true ->
    while_loop (length t) input st
    = {| idx := length pre + length t; out := out st ++ htmlEscape t;
         cur := cur st; openSpan := openSpan st |}.
Proof.
  induction t as [|c t IH]; intros pre rest st Hin Hidx Hpl.
  - destruct st. simpl in *. by rewrite app_nil_r, Nat.add_0_r, Hidx.
  - cbn [forallb] in Hpl. apply andb_prop in Hpl as [Hc Ht].
    apply is_plain_spec in Hc as (H1 & H2 & H3).
    assert (input !! idx st = Some c) as Hlk.
    { rewrite Hin, Hidx. apply list_lookup_middle. done. }
    cbn [length]. rewrite while_loop_S.
    assert ((idx st <? length input)%nat = true) as ->.
    { apply Nat.ltb_lt. apply lookup_lt_Some in Hlk. done. }
    rewrite (loop_body_ordinary input st c Hlk H1 H2 H3).
    rewrite (IH (pre ++ [c]) rest).
    + unfold emit_literal. cbn [out cur openSpan].
      change (htmlEscape (c :: t)) with (htmlEscapeChar c ++ htmlEscape t).
      change (htmlEscape [c]) with (htmlEscapeChar c ++ []).
      rewrite app_nil_r, <- app_assoc, length_app. cbn [length].
      f_equal. lia.
    + rewrite Hin, <- app_assoc. done.
    + unfold emit_literal. cbn [idx]. rewrite length_app, Hidx. simpl. lia.
    + done.
Qed.

Lemma finish_pre (st : scan) :
  finish st
  = pre_open
    ++ replace_newlines (str "<br>")
         (if truthy (openSpan st) then out st ++ str "</span>" else out st)
    ++ str "</pre>".
Proof. unfold finish, pre_open. by rewrite <- !app_assoc. Qed.

Lemma loop_body_escape (input : text) (st : scan) :
  input !! idx st = Some ESC ->
  is_char "[" (input !! S (idx st)) = false ->
  loop_body input st
  = {| idx := S (idx st); out := out st ++ [ESC];
       cur := cur st; openSpan := openSpan st |}.
Proof. intros E Hnext. unfold loop_body. rewrite E, Hnext. done. Qed.

(** C10.  [convertAnsiToHtml] returns a value for every input: its loop has
    left its condition after at most [length input] iterations, the value
    returned is [finish] of the state reached then, a [pre] block, and more
    iterations would not change it.  An
    escape character that is not followed by an opening bracket is copied to
    the output like an ordinary character: wherever the loop meets one, the
    value returned is that of the rest of the run from the state with the
    escape character appended and nothing else changed; and between two
    stretches of ordinary text the value returned is the escaped text before
    it, the escape character itself, and the escaped text after it. *)
Theorem convertAnsiToHtml_total (input : text) :
  (exists st body,
     while_loop (length input) input scan_init = st /\
     (length input <= idx st)%nat /\
     convertAnsiToHtml input = finish st /\
     convertAnsiToHtml input = pre_open ++ body ++ str "</pre>" /\
     forall extra,
       finish (while_loop (length input + extra) input scan_init)
       = convertAnsiToHtml input) /\
  (forall n st,
     while_loop n input scan_init = st ->
     input !! idx st = Some ESC ->
     is_char "[" (input !! S (idx st)) = false ->
     loop_body input st
     = {| idx := S (idx st); out := out st ++ [ESC];
          cur := cur st; openSpan := openSpan st |} /\
     convertAnsiToHtml input
     = finish (while_loop (length input) input
                 {| idx := S (idx st); out := out st ++ [ESC];
                    cur := cur st; openSpan := openSpan st |})) /\
  (forall a b,
     input = a ++ ESC :: b ->
     forallb is_plain a = true ->
     forallb is_plain b = true ->
     is_char "[" (head b) = false ->
     convertAnsiToHtml input
     = pre_open ++ htmlEscape a ++ [ESC] ++ htmlEscape b ++ str "</pre>").
Proof.
  split_and!.
  - exists (while_loop (length input) input scan_init).
    eexists. split_and!; [reflexivity| |reflexivity| |].
    + apply while_loop_exits_gen. simpl. lia.
    + unfold convertAnsiToHtml. apply finish_pre.
    + intros extra. unfold convertAnsiToHtml.
      rewrite while_loop_more_fuel by (simpl; lia). done.
  - intros n st Hst E Hnext.
    pose proof (loop_body_escape input st E Hnext) as Hbody.
    split; [done|]. unfold convertAnsiToHtml.
    rewrite <- (while_loop_more_fuel input (length input) (S n) scan_init)
      by (simpl; lia).
    replace (length input + S n)%nat with (n + S (length input))%nat by lia.
    rewrite while_loop_split, Hst, while_loop_S.
    assert ((idx st <? length input)%nat = true) as ->.
    { apply Nat.ltb_lt. by apply lookup_lt_Some in E. }
    by rewrite Hbody.
  - intros a b Hin Ha Hb Hnext. unfold convertAnsiToHtml.
    assert (length input = (length a + S (length b))%nat) as Hlen.
    { rewrite Hin, length_app. done. }
    rewrite Hlen, while_loop_split.
    rewrite (while_loop_plain_prefix input a [] (ESC :: b) scan_init Hin eq_refl Ha).
    cbn [length Nat.add out cur openSpan scan_init app].
    rewrite while_loop_S.
    assert (input !! length a = Some ESC) as E.
    { rewrite Hin. by apply list_lookup_middle. }
    assert (input !! S (length a) = head b) as E'.
    { rewrite Hin. rewrite (lookup_app_r a) by lia.
      replace (S (length a) - length a)%nat with 1%nat by lia. by destruct b. }
    cbn [idx].
    assert ((length a <? length input)%nat = true) as ->.
    { apply Nat.ltb_lt. by apply lookup_lt_Some in E. }
    rewrite loop_body_escape by (cbn [idx]; first [done | by rewrite E']).
    cbn [idx out cur openSpan].
    rewrite (while_loop_plain input b (a ++ [ESC]));
      [|by rewrite <- app_assoc| |done|done].
    2:{ cbn [idx]. rewrite length_app. simpl. lia. }
    unfold finish. cbn [openSpan truthy out].
    rewrite replace_newlines_id.
    + unfold pre_open. by rewrite <- !app_assoc.
    + rewrite !elem_of_app, list_elem_of_singleton.
      intros [[H|H]|H]; [|done|].
      * by apply (htmlEscape_no_LF a (plain_no_LF a Ha)).
      * by apply (htmlEscape_no_LF b (plain_no_LF b Hb)).
Qed.

Lemma convertAnsiToHtml_total_witness :
  convertAnsiToHtml (str "a&" ++ ESC :: str "x[0m")
  = pre_open ++ htmlEscape (str "a&") ++ [ESC] ++ htmlEscape (str "x[0m")
    ++ str "</pre>".
Proof.
  destruct (convertAnsiToHtml_total (str "a&" ++ ESC :: str "x[0m")) as (_ & _ & H).
  apply (H (str "a&") (str "x[0m")); reflexivity.
Defined.

(** ** Newlines in the returned markup *)

Lemma is_text_spec (c : ascii) : is_text c = true -> c <> ESC /\ c <> CR.
Proof.
  unfold is_text. intros H. apply andb_prop in H as [H1 H2].
  apply negb_true_iff in H1, H2. by apply Ascii.eqb_neq in H1, H2.
Qed.

Lemma loop_body_text (input : text) (st : scan) (c : ascii) :
  input !! idx st = Some c ->
  is_text c = true ->
  loop_body input st
  = {| idx := S (idx st); out := out st ++ buffer_char c;
       cur := cur st; openSpan := openSpan st |}.
Proof.
  intros E Hc. apply is_text_spec in Hc as [H1 H2].
  unfold loop_body, buffer_char. rewrite E.
  apply Ascii.eqb_neq in H1, H2. rewrite H1, H2. cbn [andb].
  destruct (Ascii.eqb c LF); [done|].
  unfold emit_literal. change (htmlEscape [c]) with (htmlEscapeChar c ++ []).
  by rewrite app_nil_r.
Qed.

(** A run of characters without escape character and carriage return: each
    goes to the render buffer, a line feed as it is, another character
    escaped. *)
Lemma while_loop_text (input t : text) :
  forall (pre : text) (st : scan) (fuel : nat),
    input = pre ++ t ->
    idx st = length pre ->
    forallb is_text t = true ->
    (length t <= fuel)%nat ->
    while_loop fuel input st
    = {| idx := length input; out := out st ++ flat_map buffer_char t;
         cur := cur st; openSpan := openSpan st |}.
Proof.
  induction t as [|c t IH]; intros pre st fuel Hin Hidx Htx Hfuel.
  - rewrite app_nil_r in Hin. subst input. rewrite while_loop_done by lia.
    destruct st. simpl in *. by rewrite app_nil_r, Hidx.
  - destruct fuel as [|fuel]; [simpl in Hfuel; lia|].
    cbn [forallb] in Htx. apply andb_prop in Htx as [Hc Ht].
    assert (input !! idx st = Some c) as Hlk.
    { rewrite Hin, Hidx. apply list_lookup_middle. done. }
    rewrite while_loop_S.
    assert ((idx st <? length input)%nat = true) as ->.
    { apply Nat.ltb_lt. apply lookup_lt_Some in Hlk. done. }
    rewrite (loop_body_text input st c Hlk Hc).
    rewrite (IH (pre ++ [c])).
    + cbn [out cur openSpan flat_map]. by rewrite <- app_assoc.
    + by rewrite <- app_assoc.
    + cbn [idx]. rewrite length_app, Hidx. simpl. lia.
    + done.
    + simpl in Hfuel. lia.
Qed.

Lemma htmlEscapeChar_no_LF (c : ascii) : c <> LF -> LF ∉ htmlEscapeChar c.
Proof.
  intros Hc H.
  apply (htmlEscape_no_LF [c]).
  - rewrite list_elem_of_singleton. congruence.
  - change (htmlEscape [c]) with (htmlEscapeChar c ++ []). by rewrite app_nil_r.
Qed.

Lemma replace_newlines_buffer (t : text) :
  replace_newlines (str "<br>") (flat_map buffer_char t) = flat_map render_char t.
Proof.
  induction t as [|c t IH]; [done|].
  cbn [flat_map]. unfold replace_newlines in *. rewrite flat_map_app, IH. f_equal.
  unfold buffer_char, render_char.
  destruct (Ascii.eqb_spec c LF) as [->|Hc]; [done|].
  apply (replace_newlines_id (str "<br>")). by apply htmlEscapeChar_no_LF.
Qed.

(** X7.  The markup returned by [convertAnsiToHtml] holds no line feed,
    whatever the input; and for a text without escape character and carriage
    return every line feed has become a [br] tag in its place: the markup is
    the [pre] block around the text with each line feed replaced by [<br>]
    and each other character escaped. *)
Theorem convertAnsiToHtml_newlines (input : text) :
  (LF ∉ convertAnsiToHtml input) /\
  (forallb is_text input = true ->
   convertAnsiToHtml input = pre_open ++ flat_map render_char input ++ str "</pre>").
Proof.
  split.
  - unfold convertAnsiToHtml, finish. rewrite !elem_of_app.
    intros [H|[H|[H|[H|[H|[H|H]]]]]].
    7: revert H; not_in_literal.
    6: { revert H. apply replace_newlines_no_LF. not_in_literal. }
    all: revert H; not_in_literal.
  - intros Htx. unfold convertAnsiToHtml.
    rewrite (while_loop_text input input [] scan_init (length input)) by done.
    unfold finish. cbn [openSpan scan_init truthy out app].
    rewrite replace_newlines_buffer. unfold pre_open. by rewrite <- !app_assoc.
Qed.

Lemma convertAnsiToHtml_newlines_witness :
  convertAnsiToHtml (str "a<b" ++ [LF; LF] ++ str "c")
  = pre_open ++ str "a&lt;b<br><br>c" ++ str "</pre>".
Proof.
  destruct (convertAnsiToHtml_newlines (str "a<b" ++ [LF; LF] ++ str "c")) as [_ H].
  apply H. reflexivity.
Defined.

(** ** Waiting for the port *)

Lemma wait_loop_bounded (m : Z) (probe : nat -> probe_result) (fuel : nat) :
  m <= 2 ^ 53 ->
  forall calls,
    (Z.to_nat (m - Z.of_nat calls) < fuel)%nat ->
    exists result,
      wait_loop fuel (JFinite m) probe (Z.of_nat calls) calls = Some result /\
      ((exists n, result = Exited 0 (Z.of_nat n) /\ (calls <= n)%nat /\
                  Z.of_nat n < m /\ probe n = PortOpen /\
                  forall k, (calls <= k < n)%nat -> probe k = PortClosed)
       \/
       (exists n, result = Rejected (Z.of_nat n) /\ (calls <= n)%nat /\
                  Z.of_nat n < m /\ probe n = ConnectThrows /\
                  forall k, (calls <= k < n)%nat -> probe k = PortClosed)
       \/
       (result = Exited 1 (Z.max (Z.of_nat calls) m) /\
        forall k, (calls <= k)%nat -> Z.of_nat k < m -> probe k = PortClosed)).
Proof.
  intros Hm. induction fuel as [|fuel IH]; intros calls Hfuel; [lia|].
  cbn [wait_loop below]. destruct (Z.ltb_spec (Z.of_nat calls) m) as [Hlt|Hge].
  - destruct (probe calls) eqn:Hp.
    + eexists. split; [done|]. left. exists calls.
      split_and!; [done|lia|lia|done|]. intros k Hk. lia.
    + assert (incr (Z.of_nat calls) = Z.of_nat (S calls)) as ->.
      { unfold incr. destruct (Z.ltb_spec (Z.of_nat calls) (2 ^ 53)); lia. }
      destruct (IH (S calls)) as (result & -> & Hres); [lia|].
      exists result. split; [done|].
      destruct Hres as [(n & -> & Hn & Hnm & Hpn & Hbefore)
                       |[(n & -> & Hn & Hnm & Hpn & Hbefore)|(-> & Hnone)]].
      * left. exists n. split_and!; [done|lia|lia|done|].
        intros k Hk. destruct (decide (k = calls)) as [->|]; [done|apply Hbefore; lia].
      * right. left. exists n. split_and!; [done|lia|lia|done|].
        intros k Hk. destruct (decide (k = calls)) as [->|]; [done|apply Hbefore; lia].
      * right. right. split; [f_equal; lia|].
        intros k Hk Hkm. destruct (decide (k = calls)) as [->|]; [done|apply Hnone; lia].
    + eexists. split; [done|]. right. left. exists calls.
      split_and!; [done|lia|lia|done|]. intros k Hk. lia.
  - eexists. split; [done|]. right. right. split; [f_equal; lia|].
    intros k Hk Hkm. lia.
Qed.

Lemma wait_loop_forever (maxAttempts : jsnum) (probe : nat -> probe_result) :
  (maxAttempts = JPosInf \/ exists m, maxAttempts = JFinite m /\ 2 ^ 53 < m) ->
  (forall k, probe k = PortClosed) ->
  forall fuel attempts calls,
    attempts <= 2 ^ 53 ->
    wait_loop fuel maxAttempts probe attempts calls = None.
Proof.
  intros Hmax Hclosed. induction fuel as [|fuel IH]; intros attempts calls Ha; [done|].
  cbn [wait_loop].
  assert (below attempts maxAttempts = true) as ->.
  { destruct Hmax as [->|(m & -> & Hm)]; [done|]. cbn [below]. apply Z.ltb_lt. lia. }
  rewrite Hclosed. apply IH. unfold incr.
  destruct (Z.ltb_spec attempts (2 ^ 53)); lia.
Qed.

(** X26.  With a limit of at most 2^53 attempts the loop of [waitForPort]
    ends within that many iterations: with [process.exit(0)] at the first
    call of [checkPort] that finds the port open, with the rejection at the
    first call in which [socket.connect] throws, and otherwise with
    [process.exit(1)] after exactly the limit's number of calls (none for a
    negative limit).  With an infinite limit, or one above 2^53 (where
    [attempts++] no longer changes the counter), the loop never ends while
    the port stays closed.  An absent, unreadable or zero third argument
    stands for 300 attempts. *)
Theorem waitForPort_bounded (argv3 : jsnum) (probe : nat -> probe_result) :
  (forall m,
     max_attempts argv3 = JFinite m -> m <= 2 ^ 53 ->
     exists result,
       waitForPort (S (Z.to_nat m)) argv3 probe = Some result /\
       ((exists n, result = Exited 0 (Z.of_nat n) /\ Z.of_nat n < m /\
                   probe n = PortOpen /\
                   forall k, (k < n)%nat -> probe k = PortClosed)
        \/
        (exists n, result = Rejected (Z.of_nat n) /\ Z.of_nat n < m /\
                   probe n = ConnectThrows /\
                   forall k, (k < n)%nat -> probe k = PortClosed)
        \/
        (result = Exited 1 (Z.max 0 m) /\
         forall k, Z.of_nat k < m -> probe k = PortClosed))) /\
  ((max_attempts argv3 = JPosInf \/
    exists m, max_attempts argv3 = JFinite m /\ 2 ^ 53 < m) ->
   (forall k, probe k = PortClosed) ->
   forall fuel, waitForPort fuel argv3 probe = None) /\
  (max_attempts argv3 = JNegInf ->
   forall fuel, waitForPort (S fuel) argv3 probe = Some (Exited 1 0)) /\
  max_attempts JNaN = JFinite 300 /\ max_attempts (JFinite 0) = JFinite 300.
Proof.
  split_and!; [| | |done|done].
  - intros m Hmax Hm. unfold waitForPort. rewrite Hmax.
    destruct (wait_loop_bounded m probe (S (Z.to_nat m)) Hm 0%nat)
      as (result & Hrun & Hres); [lia|].
    exists result. split; [done|].
    destruct Hres as [(n & -> & _ & Hnm & Hpn & Hbefore)
                     |[(n & -> & _ & Hnm & Hpn & Hbefore)|(-> & Hnone)]].
    + left. exists n. split_and!; [done..|]. intros k Hk. apply Hbefore. lia.
    + right. left. exists n. split_and!; [done..|]. intros k Hk. apply Hbefore. lia.
    + right. right. split; [done|]. intros k Hk. apply Hnone; lia.
  - intros Hmax Hclosed fuel. unfold waitForPort.
    apply wait_loop_forever; [done|done|lia].
  - intros Hmax fuel. unfold waitForPort. by rewrite Hmax.
Qed.

Lemma waitForPort_bounded_witness :
  (exists result,
     waitForPort 4 (JFinite 3)
       (fun k => if Nat.eqb k 1 then PortOpen else PortClosed) = Some result) /\
  waitForPort 1000 JPosInf (fun _ => PortClosed) = None.
Proof.
  split.
  - destruct (waitForPort_bounded (JFinite 3)
                (fun k => if Nat.eqb k 1 then PortOpen else PortClosed))
      as (H & _).
    destruct (H 3) as (result & Hrun & _); [reflexivity|lia|].
    by exists result.
  - destruct (waitForPort_bounded JPosInf (fun _ => PortClosed)) as (_ & H & _).
    apply H; [by left|done].
Defined.
